(** * mkosi: partition-table engine, cache reuse and the staged build pipeline

    A shallow embedding of the parts of [mkosi/__init__.py] that lay out
    the GPT image ([PartitionTable], [insert_partition], [insert_verity],
    [patch_root_uuid], [determine_partition_table]), reuse cache artifacts
    ([reuse_cache_image], [reuse_cache_tree], [save_cache]) and sequence the
    build ([build_image], [build_stuff]).

    Conventions.
    - Python [int] is [Z]; [//] is [Z.div] (both round towards minus
      infinity); an uncaught Python exception is [None].
    - [Optional[T]] is [option T]; Python truthiness is written out.
    - Text is [string]; the characters are bytes, which covers the ASCII
      text the host partitioner prints.
    - External tools are not run: a call of [run] is recorded as an event
      of a trace, and what a tool prints is an input of the model.
    - Files are a map from the path of an artifact (tree, image, cache)
      to what it holds; symbolic links are kept but not resolved, and the
      properties that would depend on where a link leads exclude links. *)

From Stdlib Require Import ZArith Lia List Ascii String Bool.
From stdpp Require Import base option list strings pretty gmap.

Import ListNotations.
Local Open Scope string_scope.
Local Open Scope Z_scope.
Local Open Scope list_scope.

(** ** Integer helpers *)

(** [roundup(x, step)]: [((x + step - 1) // step) * step]; a zero [step]
    raises [ZeroDivisionError]. *)
Definition roundup (x step : Z) : option Z :=
  if decide (step = 0) then None
  else Some (((x + step - 1) / step) * step).

(** [math.ceil(a / b)] for integers [a], [b].  Python divides in floating
    point, with a correctly rounded quotient.  For [|a| < 2^53], as in the
    one call here ([a] = 16384), the rounded quotient is far enough from
    the next integer to have the ceiling of the exact one,
    [-((-a) // b)], with one exception: a positive quotient of at most
    2^-1075 is rounded to 0.0, whose ceiling is 0 and not 1.  [b = 0]
    raises [ZeroDivisionError]. *)
Definition ceil_div (a b : Z) : option Z :=
  if decide (b = 0) then None
  else if decide (0 < a ∧ a * 2 ^ 1075 ≤ b ∨ a < 0 ∧ b ≤ a * 2 ^ 1075) then Some 0
  else Some (- ((- a) / b)).

(** ** The partition table *)

(** [@dataclasses.dataclass class PartitionTable].  [partitions] are the
    descriptor lines, kept as text; [last_partition_sector] is a byte
    offset in spite of its name ([read] stores
    [last_sector * sector_size]). *)
Record PartitionTable := mkPartitionTable {
  partitions : list string;
  last_partition_sector : option Z;
  sector_size : Z;
  first_lba : option Z;
  grain : Z
}.

(** The dataclass default [grain: int = 4096]; neither [read] nor [empty]
    passes another value. *)
Definition default_grain : Z := 4096.

(** [PartitionTable.empty(first_lba)] *)
Definition empty (first_lba : option Z) : PartitionTable :=
  mkPartitionTable [] None 512 first_lba default_grain.

(** [footer_size(self, max_partitions=128)] *)
Definition footer_size_of (max_partitions : Z) (self : PartitionTable) : option Z :=
  pea_sectors ← ceil_div (max_partitions * 128) (sector_size self);
  Some ((1 + pea_sectors) * sector_size self).

Definition footer_size : PartitionTable → option Z := footer_size_of 128.

(** Truthiness of an [Optional[int]]: [None] and [0] are false. *)
Definition truthy (o : option Z) : bool :=
  match o with
  | Some v => negb (v =? 0)
  | None => false
  end.

(** [first_usable_offset(self, max_partitions=128)]; the parameter is not
    used by the body, which calls [self.footer_size()] with its default. *)
Definition first_usable_offset (self : PartitionTable) : option Z :=
  if truthy (last_partition_sector self) then
    roundup (default 0 (last_partition_sector self)) (grain self)
  else
    match first_lba self with
    | Some lba =>
        (* No rounding here, we honour the specified value exactly. *)
        Some (lba * sector_size self)
    | None =>
        f ← footer_size self;
        roundup (sector_size self + f) (grain self)
    end.

(** ** Python text operations used by the engine *)

(** [str.isspace] on one ASCII character: TAB, LF, VT, FF, CR, the four
    separators FS, GS, RS, US, and the space. *)
Definition is_py_space (c : ascii) : bool :=
  let n := nat_of_ascii c in
  ((9 <=? n) && (n <=? 13) || (28 <=? n) && (n <=? 32))%nat.

Fixpoint lstrip (s : list ascii) : list ascii :=
  match s with
  | c :: r => if is_py_space c then lstrip r else s
  | [] => []
  end.

(** [s.strip()] on the characters of [s]. *)
Definition strip_chars (s : list ascii) : list ascii :=
  rev (lstrip (rev (lstrip s))).

Definition strip (s : string) : string :=
  string_of_list_ascii (strip_chars (list_ascii_of_string s)).

(** [s.startswith(p)] *)
Definition startswith (p s : string) : bool := String.prefix p s.

(** [s[n:]] for a non-negative literal [n]. *)
Definition slice_from (n : nat) (s : string) : string :=
  string_of_list_ascii (drop n (list_ascii_of_string s)).

(** [s[:n]] for a non-negative literal [n]. *)
Definition slice_to (n : nat) (s : string) : string :=
  string_of_list_ascii (take n (list_ascii_of_string s)).

(** [s[-n:]] for a positive literal [n]: the last [n] characters, the whole
    string when it is shorter. *)
Definition slice_last (n : nat) (s : string) : string :=
  let l := list_ascii_of_string s in
  string_of_list_ascii (drop (length l - n) l).

Definition digit_val (c : ascii) : option Z :=
  let n := nat_of_ascii c in
  if ((48 <=? n) && (n <=? 57))%nat then Some (Z.of_nat n - 48) else None.

(** The digits of a decimal literal, most significant first, with the
    single underscores Python allows between two digits.  [prev_digit]
    tells whether the previous character was a digit; [acc] is the value
    read so far. *)
Fixpoint int_digits (prev_digit : bool) (acc : Z) (s : list ascii) : option Z :=
  match s with
  | [] => if prev_digit then Some acc else None
  | c :: r =>
      match digit_val c with
      | Some d => int_digits true (10 * acc + d) r
      | None =>
          if (Ascii.eqb c "_" && prev_digit)%bool then
            match r with
            | c' :: _ =>
                match digit_val c' with
                | Some _ => int_digits false acc r
                | None => None
                end
            | [] => None
            end
          else None
      end
  end.

(** [int(s)] on ASCII text: surrounding whitespace is dropped, one sign is
    allowed, then decimal digits; anything else raises [ValueError]. *)
Definition py_int (s : string) : option Z :=
  match strip_chars (list_ascii_of_string s) with
  | "-"%char :: r => Z.opp <$> int_digits false 0 r
  | "+"%char :: r => int_digits false 0 r
  | r => int_digits false 0 r
  end.

(** [s.split(sep)] for a one-character separator, on characters. *)
Fixpoint split_chars (sep : ascii) (cur : list ascii) (s : list ascii)
  : list (list ascii) :=
  match s with
  | [] => [rev cur]
  | c :: r =>
      if Ascii.eqb c sep then rev cur :: split_chars sep [] r
      else split_chars sep (c :: cur) r
  end.

Definition split (sep : ascii) (s : string) : list string :=
  string_of_list_ascii <$> split_chars sep [] (list_ascii_of_string s).

(** The second component of [s.split(sep, 1)] when there are two, as in
    [_, rest = line.split(":", 1)]; without a separator the unpacking
    raises [ValueError]. *)
Fixpoint after_first (sep : ascii) (s : list ascii) : option (list ascii) :=
  match s with
  | [] => None
  | c :: r => if Ascii.eqb c sep then Some r else after_first sep r
  end.

Definition split1_rest (sep : ascii) (s : string) : option string :=
  string_of_list_ascii <$> after_first sep (list_ascii_of_string s).

(** ** [PartitionTable.read] *)

(** The inner loop over the fields of one descriptor: the last
    [start=] and the last [size=] field win. *)
Fixpoint read_fields (fields : list string) (start size : option Z)
  : option (option Z * option Z) :=
  match fields with
  | [] => Some (start, size)
  | field :: rest =>
      let field := strip field in
      start' ← (if startswith "start=" field
                then Some <$> py_int (slice_from 6 field) else Some start);
      size' ← (if startswith "size=" field
               then Some <$> py_int (slice_from 5 field) else Some size);
      read_fields rest start' size'
  end.

(** The local variables of [read] that the loop over the lines updates. *)
Record ReadState := mkReadState {
  rs_table : list string;
  rs_last_sector : Z;
  rs_sector_size : Z;
  rs_first_lba : option Z;
  rs_in_body : bool
}.

Definition read_init : ReadState := mkReadState [] 0 512 None false.

(** What the body of the loop finds in one descriptor [line]: the values
    of its [start=] and [size=] fields.  A line without a colon cannot be
    unpacked and raises. *)
Definition descriptor_fields (line : string) : option (option Z * option Z) :=
  rest ← split1_rest ":" line;
  read_fields (split "," rest) None None.

(** [start + size] of a descriptor that has both. *)
Definition descriptor_end (line : string) : option (option Z) :=
  '(start, size) ← descriptor_fields line;
  Some (match start, size with
        | Some a, Some b => Some (a + b)
        | _, _ => None
        end).

(** One iteration of [for line in c.stdout.splitlines()]. *)
Definition read_line (st : ReadState) (line : string) : option ReadState :=
  let line := strip line in
  sector_size' ← (if startswith "sector-size:" line
                  then py_int (slice_from 12 line) else Some (rs_sector_size st));
  first_lba' ← (if startswith "first-lba:" line
                then Some <$> py_int (slice_from 10 line) else Some (rs_first_lba st));
  if String.eqb line "" then
    Some (mkReadState (rs_table st) (rs_last_sector st) sector_size' first_lba' true)
  else if negb (rs_in_body st) then
    Some (mkReadState (rs_table st) (rs_last_sector st) sector_size' first_lba' false)
  else
    e ← descriptor_end line;
    let last_sector' :=
      match e with
      | Some end_ => Z.max (rs_last_sector st) end_
      | None => rs_last_sector st
      end in
    Some (mkReadState (rs_table st ++ [line]) last_sector' sector_size' first_lba' true).

Fixpoint read_loop (st : ReadState) (lines : list string) : option ReadState :=
  match lines with
  | [] => Some st
  | line :: rest => st' ← read_line st line; read_loop st' rest
  end.

(** [PartitionTable.read(loopdev)], from the lines of what
    [sfdisk --dump loopdev] printed. *)
Definition read (dump : list string) : option PartitionTable :=
  st ← read_loop read_init dump;
  Some (mkPartitionTable (rs_table st)
          (Some (rs_last_sector st * rs_sector_size st))
          (rs_sector_size st) (rs_first_lba st) default_grain).

(** ** UUIDs *)

(** A [uuid.UUID], by its 128-bit [int]. *)
Record UUID := mkUUID { uuid_int : Z }.

Definition hex_char (d : Z) : ascii :=
  nth (Z.to_nat d) (list_ascii_of_string "0123456789abcdef") "0"%char.

(** The [k] hexadecimal digits of [n], most significant first
    (['%032x' % n] for [k = 32]). *)
Fixpoint hex_digits (k : nat) (n : Z) : list ascii :=
  match k with
  | O => []
  | S k' => hex_digits k' (n / 16) ++ [hex_char (n mod 16)]
  end.

Definition hex_val (c : ascii) : option Z :=
  let n := nat_of_ascii c in
  if ((48 <=? n) && (n <=? 57))%nat then Some (Z.of_nat n - 48)
  else if ((97 <=? n) && (n <=? 102))%nat then Some (Z.of_nat n - 87)
  else if ((65 <=? n) && (n <=? 70))%nat then Some (Z.of_nat n - 55)
  else None.

Fixpoint parse_hex (acc : Z) (s : list ascii) : option Z :=
  match s with
  | [] => Some acc
  | c :: r => d ← hex_val c; parse_hex (16 * acc + d) r
  end.

(** [uuid.UUID(hex)] on a string of hexadecimal digits: exactly 32 of them
    are required, otherwise [ValueError].  (The library also accepts
    braces, hyphens and a [urn:uuid:] prefix, which it removes first; a
    root hash has none of these, and the model rejects them.) *)
Definition UUID_of_hex (hex : string) : option UUID :=
  let l := list_ascii_of_string hex in
  if decide (length l = 32%nat) then mkUUID <$> parse_hex 0 l else None.

(** [str(u)]: the 32 digits in groups of 8, 4, 4, 4 and 12. *)
Definition UUID_str (u : UUID) : string :=
  let h := hex_digits 32 (uuid_int u) in
  string_of_list_ascii
    (take 8 h ++ "-"%char :: take 4 (drop 8 h) ++ "-"%char :: take 4 (drop 12 h)
     ++ "-"%char :: take 4 (drop 16 h) ++ "-"%char :: drop 20 h).

(** ** Configuration and the attributes the build assigns *)

(** The members of [OutputFormat] that the source names. *)
Inductive OutputFormatKind :=
  | directory | subvolume | tar | cpio
  | gpt_ext4 | gpt_xfs | gpt_btrfs | gpt_squashfs | plain_squashfs.

Global Instance OutputFormatKind_eq_dec : EqDecision OutputFormatKind.
Proof. solve_decision. Defined.

(** [OutputFormat] is declared in [mkosi/backend.py]; its predicates are
    taken as given with the value: an output format is its member together
    with what [is_disk()], [is_disk_rw()] and [is_squashfs()] answer. *)
Record OutputFormat := mkOutputFormat {
  kind : OutputFormatKind;
  is_disk : bool;
  is_disk_rw : bool;
  is_squashfs : bool
}.

(** The fields of [CommandLineArguments] that are only read. *)
Record CommandLineArguments := mkArgs {
  output_format : OutputFormat;
  gpt_first_lba : option Z;
  encrypt : option string;
  passphrase : option string;
  bootable : bool;
  boot_protocols : list string;
  esp_size : option Z;
  xbootldr_size : option Z;
  swap_size : option Z;
  home_size : option Z;
  srv_size : option Z;
  var_size : option Z;
  tmp_size : option Z;
  verity_size : option Z;
  minimize : bool;
  usr_only : bool;
  read_only : bool;
  verity : bool;
  split_artifacts : bool;
  architecture : option string;
  image_id : option string;
  image_version : option string;
  incremental : bool;
  force_count : Z;
  build_script : option string;
  cache_pre_dev : option string;
  cache_pre_inst : option string;
  skip_final_phase : bool;
  ssh : bool;
  output : string
}.

(** The attributes of [args] that the build assigns to. *)
Record Slots := mkSlots {
  ran_sfdisk : bool;
  esp_partno : option Z;
  bios_partno : option Z;
  xbootldr_partno : option Z;
  swap_partno : option Z;
  home_partno : option Z;
  srv_partno : option Z;
  var_partno : option Z;
  tmp_partno : option Z;
  root_partno : option Z;
  verity_partno : option Z;
  root_size : option Z
}.

Definition set_ran_sfdisk (b : bool) (s : Slots) : Slots :=
  mkSlots b (esp_partno s) (bios_partno s) (xbootldr_partno s) (swap_partno s)
    (home_partno s) (srv_partno s) (var_partno s) (tmp_partno s)
    (root_partno s) (verity_partno s) (root_size s).

Definition set_root_size (v : option Z) (s : Slots) : Slots :=
  mkSlots (ran_sfdisk s) (esp_partno s) (bios_partno s) (xbootldr_partno s)
    (swap_partno s) (home_partno s) (srv_partno s) (var_partno s) (tmp_partno s)
    (root_partno s) (verity_partno s) v.

(** ** External effects *)

(** Where [dd] writes a blob: the opened LUKS mapping, or
    [partition(loopdev, partno)]. *)
Inductive Target :=
  | LuksMapping
  | PartitionOf (loopdev : string) (partno : Z).

(** What the engine does to the outside world, in order.  [Run argv input]
    is [run(argv, input=...)], with the empty text when no input is given.
    [External f] stands for the tool calls of the source function(s) [f],
    which the model does not look into. *)
Inductive Event :=
  | Truncate (file : string) (size : Z)
  | Run (argv : list string) (input : string)
  | LuksFormat (loopdev : string) (partno : Z)
  | LuksOpen (loopdev : string) (partno : Z)
  | LuksClose
  | Dd (blob : string) (target : Target)
  | External (f : string).

Definition nl : string := String (ascii_of_nat 10) EmptyString.

Definition dquote : string := String (ascii_of_nat 34) EmptyString.

(** [sep.join(l)] *)
Fixpoint join (sep : string) (l : list string) : string :=
  match l with
  | [] => ""
  | [x] => x
  | x :: r => x +:+ sep +:+ join sep r
  end.

(** ** [insert_partition] *)

Definition luks_extra (args : CommandLineArguments) : Z :=
  if decide (encrypt args = Some "all") then 16 * 1024 * 1024 else 0.

(** The descriptor of the new partition: [', '.join(new)]. *)
Definition new_descriptor (n_sectors : Z) (name : string) (type_uuid : UUID)
    (read_only : bool) (uuid_opt : option UUID) : string :=
  join ", "
    ((match uuid_opt with
      | Some u => ["uuid=" +:+ UUID_str u]
      | None => []
      end) ++
     [ "size=" +:+ pretty n_sectors;
       "type=" +:+ UUID_str type_uuid;
       "attrs=" +:+ (if read_only then "GUID:60" else "");
       "name=" +:+ dquote +:+ name +:+ dquote ]).

(** The script handed to the partitioner: the list [table]. *)
Definition insert_script (old_table : PartitionTable) (first_lba : option Z)
    (descriptor : string) : list string :=
  [ "label: gpt"; "grain: " +:+ pretty (grain old_table) ] ++
  (match first_lba with
   | Some l => ["first-lba: " +:+ pretty l]
   | None => []
   end) ++
  partitions old_table ++ [descriptor].

Record Inserted := mkInserted {
  ins_slots : Slots;        (* [args] afterwards *)
  ins_size : Z;             (* size of the backing file afterwards *)
  ins_script : list string; (* the table written to the partitioner *)
  ins_events : list Event;
  ins_returned : Z          (* the function's result *)
}.

(** The table an insertion starts from: read from the device once the
    partitioner has run, otherwise a made-up empty one. *)
Definition old_table_of (args : CommandLineArguments) (slots : Slots)
    (dump : list string) : option PartitionTable :=
  if ran_sfdisk slots then read dump
  else
    (* No partition table yet? Then let's fake one... *)
    Some (empty (gpt_first_lba args)).

(** The lengths [os.truncate] and [f.truncate] take: a negative one is
    refused by the system call, and one that does not fit the signed
    64 bits of [off_t] raises [OverflowError] in the conversion. *)
Definition off_t_max : Z := 2 ^ 63 - 1.

(** [insert_partition(args, raw, loopdev, partno, blob, name, type_uuid,
    read_only, uuid_opt)].  [dump] is what [sfdisk --dump loopdev] prints
    at the time of the call (read only when [args.ran_sfdisk]); [st_size]
    is [os.stat(blob.name).st_size].  For the root under
    [encrypt == "all"], [luks_format_root] and [luks_setup_root] assert
    that a passphrase is set. *)
Definition insert_partition (args : CommandLineArguments) (slots : Slots)
    (dump : list string) (raw loopdev : string) (partno : Z)
    (blob : string) (st_size : Z) (name : string) (type_uuid : UUID)
    (read_only : bool) (uuid_opt : option UUID) : option Inserted :=
  old_table ← old_table_of args slots dump;
  blob_size ← roundup st_size 512;
  partition_offset ← first_usable_offset old_table;
  footer ← footer_size old_table;
  new_size ← roundup (partition_offset + blob_size + luks_extra args + footer) 4096;
  (* [os.truncate(raw.name, new_size)] *)
  guard (0 ≤ new_size ≤ off_t_max);;
  let first_lba :=
    match gpt_first_lba args with
    | Some l => Some l
    | None =>
        match partitions old_table with
        | _ :: _ => None
        | [] => Some (partition_offset / sector_size old_table)
        end
    end in
  let n_sectors := (blob_size + luks_extra args) / 512 in
  let table :=
    insert_script old_table first_lba
      (new_descriptor n_sectors name type_uuid read_only uuid_opt) in
  let encrypted_root :=
    bool_decide (root_partno slots = Some partno ∧ encrypt args = Some "all") in
  (* assert args.passphrase is not None *)
  guard (encrypted_root = true → is_Some (passphrase args));;
  Some (mkInserted (set_ran_sfdisk true slots) new_size table
    ([ Truncate raw new_size;
       Run ["losetup"; "--set-capacity"; loopdev] "";
       Run ["sfdisk"; "--color=never"; "--no-reread"; "--no-tell-kernel"; loopdev]
           (join nl table);
       Run ["sync"] "";
       Run ["blockdev"; "--rereadpt"; loopdev] "" ] ++
     (if encrypted_root
      then [ LuksFormat loopdev partno; LuksOpen loopdev partno;
             Dd blob LuksMapping; LuksClose ]
      else [ Dd blob (PartitionOf loopdev partno) ]))
    blob_size).

(** ** Partition types and names *)

Definition GPT_ROOT_X86           : UUID := mkUUID 0x44479540f29741b29af7d131d5f0458a.
Definition GPT_ROOT_X86_64        : UUID := mkUUID 0x4f68bce3e8cd4db196e7fbcaf984b709.
Definition GPT_ROOT_ARM           : UUID := mkUUID 0x69dad7102ce44e3cb16c21a1d49abed3.
Definition GPT_ROOT_ARM_64        : UUID := mkUUID 0xb921b0451df041c3af444c6f280d3fae.
Definition GPT_USR_X86            : UUID := mkUUID 0x75250d768cc6458ebd66bd47cc81a812.
Definition GPT_USR_X86_64         : UUID := mkUUID 0x8484680c952148c69c11b0720656f69e.
Definition GPT_USR_ARM            : UUID := mkUUID 0x7d0359a302b34f0a865c654403e70625.
Definition GPT_USR_ARM_64         : UUID := mkUUID 0xb0e01050ee5f4390949a9101b17104e9.
Definition GPT_ESP                : UUID := mkUUID 0xc12a7328f81f11d2ba4b00a0c93ec93b.
Definition GPT_BIOS               : UUID := mkUUID 0x2168614864496e6f744e656564454649.
Definition GPT_SWAP               : UUID := mkUUID 0x0657fd6da4ab43c484e50933c84b4f4f.
Definition GPT_HOME               : UUID := mkUUID 0x933ac7e12eb44f13b8440e14e2aef915.
Definition GPT_SRV                : UUID := mkUUID 0x3b8f842520e04f3b907f1a25a76f98e8.
Definition GPT_XBOOTLDR           : UUID := mkUUID 0xbc13c2ff59e64262a352b275fd6f7172.
Definition GPT_ROOT_X86_VERITY    : UUID := mkUUID 0xd13c5d3bb5d1422ab29f9454fdc89d76.
Definition GPT_ROOT_X86_64_VERITY : UUID := mkUUID 0x2c7357edebd246d9aec123d437ec2bf5.
Definition GPT_ROOT_ARM_VERITY    : UUID := mkUUID 0x7386cdf2203c47a9a498f2ecce45a2d6.
Definition GPT_ROOT_ARM_64_VERITY : UUID := mkUUID 0xdf3300ced69f4c92978c9bfb0f38d820.
Definition GPT_USR_X86_VERITY     : UUID := mkUUID 0x8f461b0d14ee4e819aa9049b6fb97abd.
Definition GPT_USR_X86_64_VERITY  : UUID := mkUUID 0x77ff5f63e7b64633acf41565b864c0e6.
Definition GPT_USR_ARM_VERITY     : UUID := mkUUID 0xc215d7517bcd4649be906627490a4c05.
Definition GPT_USR_ARM_64_VERITY  : UUID := mkUUID 0x6e11a4e7fbca4dedb9e9e1a512bb664e.
Definition GPT_TMP                : UUID := mkUUID 0x7ec6f5573bc54acab29316ef5df639d1.
Definition GPT_VAR                : UUID := mkUUID 0x4d21b016b53445c2a9fb5c16e091fd2d.

Definition BIOS_PARTITION_SIZE : Z := 1024 * 1024.

(** [class GPTRootTypePair(NamedTuple)], fields [root] and [verity]. *)
Record GPTRootTypePair := mkPair { pair_root : UUID; pair_verity : UUID }.

Definition string_in (s : string) (l : list string) : bool :=
  existsb (String.eqb s) l.

(** [gpt_root_native(arch, usr_only)]; [machine] is what
    [platform.machine()] answers.  [die] is [None]. *)
Definition gpt_root_native (machine : string) (arch : option string)
    (usr_only : bool) : option GPTRootTypePair :=
  let arch := default machine arch in
  if usr_only then
    if string_in arch ["i386"; "i486"; "i586"; "i686"]
    then Some (mkPair GPT_USR_X86 GPT_USR_X86_VERITY)
    else if String.eqb arch "x86_64" then Some (mkPair GPT_USR_X86_64 GPT_USR_X86_64_VERITY)
    else if String.eqb arch "aarch64" then Some (mkPair GPT_USR_ARM_64 GPT_USR_ARM_64_VERITY)
    else if String.eqb arch "armv7l" then Some (mkPair GPT_USR_ARM GPT_USR_ARM_VERITY)
    else None
  else
    if string_in arch ["i386"; "i486"; "i586"; "i686"]
    then Some (mkPair GPT_ROOT_X86 GPT_ROOT_X86_VERITY)
    else if String.eqb arch "x86_64" then Some (mkPair GPT_ROOT_X86_64 GPT_ROOT_X86_64_VERITY)
    else if String.eqb arch "aarch64" then Some (mkPair GPT_ROOT_ARM_64 GPT_ROOT_ARM_64_VERITY)
    else if String.eqb arch "armv7l" then Some (mkPair GPT_ROOT_ARM GPT_ROOT_ARM_VERITY)
    else None.

(** [is_generated_root(args)] *)
Definition is_generated_root (args : CommandLineArguments) : bool :=
  minimize args || is_squashfs (output_format args) || usr_only args.

(** [root_partition_name(args, verity)] *)
Definition root_partition_name (args : CommandLineArguments) (verity : bool) : string :=
  match image_id args with
  | Some id =>
      match image_version args with
      | Some v => id +:+ "_" +:+ v
      | None => id
      end
  | None =>
      let prefix := if usr_only args then "System Resources" else "Root" in
      if verity then prefix +:+ " Verity" else prefix +:+ " Partition"
  end.

(** ** [determine_partition_table] *)

(** One line [size=..., type=..., name="..."] of the initial table. *)
Definition sized_line (size : Z) (type : UUID) (name : string) : string :=
  "size=" +:+ pretty (size / 512) +:+ ", type=" +:+ UUID_str type +:+
  ", name=" +:+ dquote +:+ name +:+ dquote +:+ nl.

(** The running state of the function: the text so far, the next free
    partition number and whether the partitioner has to run. *)
Record Numbering := mkNumbering { nb_table : string; nb_pn : Z; nb_run : bool }.

(** [if size is not None: table += ...; partno = pn; pn += 1;
    run_sfdisk = True] (the last only where the source has it). *)
Definition add_slot (size : option Z) (type : UUID) (name : string)
    (sets_run : bool) (nb : Numbering) : option Z * Numbering :=
  match size with
  | Some sz =>
      (Some (nb_pn nb),
       mkNumbering (nb_table nb +:+ sized_line sz type name) (nb_pn nb + 1)
         (nb_run nb || sets_run))
  | None => (None, nb)
  end.

(** The numbers of the partitions before the root. *)
Record Numbers := mkNumbers {
  n_esp : option Z; n_bios : option Z; n_xbootldr : option Z; n_swap : option Z;
  n_home : option Z; n_srv : option Z; n_var : option Z; n_tmp : option Z
}.

(** [determine_partition_table(args)] down to the line of a root that is
    not generated: the numbers given out and the running state. *)
Definition number_partitions (machine : string) (args : CommandLineArguments)
  : option (Numbers * Numbering) :=
  let nb := mkNumbering
    ("label: gpt" +:+ nl +:+
     match gpt_first_lba args with
     | Some l => "first-lba: " +:+ pretty l +:+ nl
     | None => ""
     end) 1 false in
  '(esp, bios, nb) ←
    (if bootable args then
       '(esp, nb) ←
         (if string_in "uefi" (boot_protocols args) then
            (* assert args.esp_size is not None *)
            sz ← esp_size args;
            Some (add_slot (Some sz) GPT_ESP "ESP System Partition" false nb)
          else Some (None, nb));
       let '(bios, nb) :=
         if string_in "bios" (boot_protocols args)
         then add_slot (Some BIOS_PARTITION_SIZE) GPT_BIOS "BIOS Boot Partition" false nb
         else (None, nb) in
       Some (esp, bios, mkNumbering (nb_table nb) (nb_pn nb) true)
     else Some (None, None, nb));
  let '(xbootldr, nb) :=
    add_slot (xbootldr_size args) GPT_XBOOTLDR "Boot Loader Partition" false nb in
  let '(swap, nb) := add_slot (swap_size args) GPT_SWAP "Swap Partition" true nb in
  let '(home, srv, var, tmp, nb) :=
    if negb (bool_decide (kind (output_format args) = gpt_btrfs)) then
      let '(home, nb) := add_slot (home_size args) GPT_HOME "Home Partition" true nb in
      let '(srv, nb) := add_slot (srv_size args) GPT_SRV "Server Data Partition" true nb in
      let '(var, nb) := add_slot (var_size args) GPT_VAR "Variable Data Partition" true nb in
      let '(tmp, nb) := add_slot (tmp_size args) GPT_TMP "Temporary Data Partition" true nb in
      (home, srv, var, tmp, nb)
    else (None, None, None, None, nb) in
  nb ←
    (if negb (is_generated_root args) then
       pair ← gpt_root_native machine (architecture args) (usr_only args);
       Some (mkNumbering
         (nb_table nb +:+ "type=" +:+ UUID_str (pair_root pair) +:+ ", attrs=" +:+
          (if read_only args && negb (bool_decide (kind (output_format args) = gpt_btrfs))
           then "GUID:60" else "") +:+
          ", name=" +:+ dquote +:+ root_partition_name args false +:+ dquote +:+ nl)
         (nb_pn nb) true)
     else Some nb);
  Some (mkNumbers esp bios xbootldr swap home srv var tmp, nb).

(** [determine_partition_table(args)]: the assigned attributes, the table
    and [run_sfdisk].  The root takes the next number and the verity
    partition the one after it, whether or not the table has lines for
    them. *)
Definition determine_partition_table (machine : string)
    (args : CommandLineArguments) (slots : Slots) : option (Slots * string * bool) :=
  '(n, nb) ← number_partitions machine args;
  let root := nb_pn nb in
  let verity_no := if verity args then Some (root + 1) else None in
  Some (mkSlots (ran_sfdisk slots) (n_esp n) (n_bios n) (n_xbootldr n) (n_swap n)
          (n_home n) (n_srv n) (n_var n) (n_tmp n)
          (Some root) verity_no (root_size slots),
        nb_table nb, nb_run nb).

(** ** Files *)

(** What a path names.  The data of a file is kept as text; [Special]
    is anything that is neither a regular file, a symbolic link nor a
    directory (sockets, device nodes).  Ownership, modes and times are not
    modelled.  Links are not resolved: where the code follows one
    ([Path.mkdir(exist_ok=True)], [os.path.isdir], [os.path.exists]) the
    functions below take it to lead to something that exists and is no
    directory; what the code does through a link that leads to a directory
    is outside this model, and the properties that depend on it exclude
    such links. *)
Inductive Node :=
  | File (data : string)
  | Symlink (target : string)
  | Dir (entries : Entries)
  | Special
with Entries :=
  | ENil
  | ECons (name : string) (node : Node) (rest : Entries).

Scheme Node_mut := Induction for Node Sort Prop
  with Entries_mut := Induction for Entries Sort Prop.

Fixpoint entry_lookup (name : string) (es : Entries) : option Node :=
  match es with
  | ENil => None
  | ECons n x r => if String.eqb n name then Some x else entry_lookup name r
  end.

Fixpoint entry_set (name : string) (x : Node) (es : Entries) : Entries :=
  match es with
  | ENil => ECons name x ENil
  | ECons n y r =>
      if String.eqb n name then ECons n x r else ECons n y (entry_set name x r)
  end.

(** [copy_path(oldpath, newpath)] on directory contents: [src] is what
    [os.scandir(oldpath)] lists, [dst] what [newpath] holds after
    [newpath.mkdir(exist_ok=True)].  Directories are merged (a
    non-directory in the way is unlinked first), files and links replace
    what was there, other entries are skipped with a message; where the
    source has a file or link and the destination a directory, unlinking
    the destination raises.  A link of the destination under the name of
    a source directory is replaced like any other non-directory; the code
    does that only when the link does not lead to a directory and copies
    through it otherwise (see [links_clear]). *)
Fixpoint copy_entries (src dst : Entries) : option Entries :=
  match src with
  | ENil => Some dst
  | ECons name x rest =>
      dst' ←
        match x with
        | Dir es =>
            let base := match entry_lookup name dst with
                        | Some (Dir ds) => ds
                        | _ => ENil
                        end in
            sub ← copy_entries es base;
            Some (entry_set name (Dir sub) dst)
        | File _ | Symlink _ =>
            match entry_lookup name dst with
            | Some (Dir _) => None
            | _ => Some (entry_set name x dst)
            end
        | Special => Some dst
        end;
      copy_entries rest dst'
  end.

(** The file system: the artifacts of a build (cache files and trees,
    temporary images, the workspace root) by path. *)
Abbreviation FS := (gmap string Node).

(** [copy_path(oldpath, newpath)] between two artifacts.  [os.scandir]
    of something that is not a directory raises. *)
Definition copy_path (oldpath newpath : string) (fs : FS) : option FS :=
  match fs !! oldpath with
  | Some (Dir src) =>
      let base := match fs !! newpath with
                  | Some (Dir ds) => ds
                  | _ => ENil
                  end in
      merged ← copy_entries src base;
      Some (<[newpath := Dir merged]> fs)
  | _ => None
  end.

(** What [copy_file_object] has put into the new file when it returns.
    After a reflink the new file has all of the data.  Where reflinks are
    not supported the data goes through [shutil.copyfileobj] into the
    buffered file object of [tempfile], which nothing flushes before the
    function returns: the last [pending] characters are still in the
    buffer and not in the file. *)
Definition copied_data (reflink : bool) (pending : nat) (data : string) : string :=
  if reflink then data else slice_to (String.length data - pending) data.

(** [copy_image_temporary(src, dir)]: a new temporary file [f], made by
    [tempfile], with the data of [src] as far as it has been written.
    [None] for the outer option is an exception other than
    [FileNotFoundError]; [Some None] is [FileNotFoundError]. *)
Definition copy_image_temporary (reflink : bool) (pending : string → nat)
    (src f : string) (fs : FS) : option (option (string * FS)) :=
  match fs !! src with
  | None => Some None
  | Some (File data) =>
      Some (Some (f, <[f := File (copied_data reflink (pending data) data)]> fs))
  | Some _ => None
  end.

(** [unlink_try_hard(path)]: the path is gone afterwards, whatever it
    was; a missing path is not an error. *)
Definition unlink_try_hard (path : string) (fs : FS) : FS := delete path fs.

(** [os.path.basename(path.rstrip("/"))], the [_basename] of [shutil]. *)
Fixpoint rstrip_slash (s : list ascii) : list ascii :=
  match s with
  | [] => []
  | c :: r =>
      match rstrip_slash r with
      | [] => if Ascii.eqb c "/" then [] else [c]
      | r' => c :: r'
      end
  end.

Fixpoint after_last_slash (acc s : list ascii) : list ascii :=
  match s with
  | [] => acc
  | c :: r => if Ascii.eqb c "/" then after_last_slash r r else after_last_slash acc r
  end.

Definition basename (path : string) : string :=
  let p := rstrip_slash (list_ascii_of_string path) in
  string_of_list_ascii (after_last_slash p p).

(** [shutil.move(src, dst)].  Where [dst] is an existing directory, [src]
    is moved into it under its base name, unless something of that name
    is there already, which raises; [src] and [dst] being the same
    directory is a rename onto itself.  Otherwise it is a rename that
    replaces [dst]; a directory cannot replace what is no directory (the
    rename fails and so does the copy the library falls back to).  A
    missing [src] raises. *)
Definition move (src dst : string) (fs : FS) : option FS :=
  match fs !! src with
  | None => None
  | Some x =>
      match fs !! dst with
      | Some (Dir es) =>
          if decide (src = dst) then Some fs
          else
            match entry_lookup (basename src) es with
            | Some _ => None
            | None =>
                Some (<[dst := Dir (entry_set (basename src) x es)]> (delete src fs))
            end
      | Some _ =>
          match x with
          | Dir _ => None
          | _ => Some (<[dst := x]> (delete src fs))
          end
      | None => Some (<[dst := x]> (delete src fs))
      end
  end.

(** ** The environment of a build *)

(** What the host and the external tools answer, and the names
    [tempfile] picks.  [sfdisk_dump] gives the lines of
    [sfdisk --dump loopdev] after the events of the build so far;
    [reflink] tells whether the file system clones files ([FICLONE]), and
    [pending] how much of a copy made without it is still buffered. *)
Record Env := mkEnv {
  machine : string;
  env_loopdev : string;
  sfdisk_dump : list Event → list string;
  st_size : string → Z;
  veritysetup_stdout : list string;
  efi_kernels : list string;
  reflink : bool;
  pending : string → nat;
  tmp_raw : string;
  tmp_generated_root : string;
  tmp_verity : string;
  tmp_archive : string;
  tmp_split_root : string;
  tmp_split_kernel : string;
  tmp_sshkey : string;
  var_tmp : string → string;
  root_home : string → string
}.

(** The state a build threads: the files and the assigned attributes of
    [args]. *)
Record World := mkWorld { fs : FS; slots : Slots }.

(** [@dataclasses.dataclass class BuildOutput] *)
Record BuildOutput := mkBuildOutput {
  raw : option string;
  archive : option string;
  root_hash : option string;
  sshkey : option string;
  split_root : option string;
  split_verity : option string;
  split_kernel : option string
}.

Definition BuildOutput_empty : BuildOutput :=
  mkBuildOutput None None None None None None None.

(** ** Creating and reusing images *)

(** [image_size(args)] *)
Definition image_size (args : CommandLineArguments) (slots : Slots) : option Z :=
  let gpt := empty (gpt_first_lba args) in
  off ← first_usable_offset gpt;
  foot ← footer_size gpt;
  let add (o : option Z) (size : Z) := size + default 0 o in
  let size := off + foot in
  let size := add (root_size slots) size in
  let size := add (home_size args) size in
  let size := add (srv_size args) size in
  let size := add (var_size args) size in
  let size := add (tmp_size args) size in
  size ←
    (if bootable args then
       size ← (if string_in "uefi" (boot_protocols args) then
                 (* assert args.esp_size *)
                 if truthy (esp_size args) then Some (add (esp_size args) size) else None
               else Some size);
       Some (if string_in "bios" (boot_protocols args)
             then size + BIOS_PARTITION_SIZE else size)
     else Some size);
  let size := add (xbootldr_size args) size in
  let size := add (swap_size args) size in
  Some (add (verity_size args) size).

(** [exec_sfdisk(args, f)] *)
Definition exec_sfdisk (env : Env) (args : CommandLineArguments) (f : string)
    (slots : Slots) : option (Slots * list Event) :=
  '(slots, table, run_sfdisk) ← determine_partition_table (machine env) args slots;
  Some (set_ran_sfdisk run_sfdisk slots,
        if run_sfdisk
        then [Run ["sfdisk"; "--color=never"; f] table; Run ["sync"] ""]
        else []).

(** [disable_cow(path)] *)
Definition disable_cow (path : string) : Event := Run ["chattr"; "+C"; path] "".

(** [create_image(args, for_cache)] *)
Definition create_image (env : Env) (args : CommandLineArguments) (w : World)
  : option (option string * list Event * World) :=
  if negb (is_disk (output_format args)) then Some (None, [], w)
  else
    let f := tmp_raw env in
    size ← image_size args (slots w);
    (* [f.truncate(image_size(args))] *)
    guard (0 ≤ size ≤ off_t_max);;
    '(slots', evs) ← exec_sfdisk env args f (slots w);
    Some (Some f, disable_cow f :: Truncate f size :: evs,
          mkWorld (<[f := File ""]> (fs w)) slots').

(** [refresh_partition_table(args, f)] *)
Definition refresh_partition_table (env : Env) (args : CommandLineArguments)
    (f : string) (slots : Slots) : option (Slots * list Event) :=
  if negb (is_disk (output_format args)) then Some (slots, [])
  else exec_sfdisk env args f slots.

(** The cache artifact of a stage:
    [args.cache_pre_dev if do_run_build_script else args.cache_pre_inst]. *)
Definition cache_name (args : CommandLineArguments) (do_run_build_script : bool)
  : option string :=
  if do_run_build_script then cache_pre_dev args else cache_pre_inst args.

(** [reuse_cache_image(args, do_run_build_script, for_cache)]: the image
    to work on, whether a cache was found, the events and the state
    afterwards. *)
Definition reuse_cache_image (env : Env) (args : CommandLineArguments)
    (do_run_build_script for_cache : bool) (w : World)
  : option (option string * bool * list Event * World) :=
  if negb (incremental args) then Some (None, false, [], w)
  else if negb (is_disk_rw (output_format args)) then Some (None, false, [], w)
  else
    let fname := cache_name args do_run_build_script in
    if for_cache then
      match fname with
      | Some fname =>
          if bool_decide (is_Some (fs w !! fname))
          then Some (None, true, [], w) else Some (None, false, [], w)
      | None => Some (None, false, [], w)
      end
    else
      match fname with
      | None => Some (None, false, [], w)
      | Some fname =>
          copied ← copy_image_temporary (reflink env) (pending env) fname
                     (tmp_raw env) (fs w);
          match copied with
          | None => Some (None, false, [], w)
          | Some (f, fs') =>
              '(slots', _, run_sfdisk) ←
                determine_partition_table (machine env) args (slots w);
              Some (Some f, true, [disable_cow f],
                    mkWorld fs' (set_ran_sfdisk run_sfdisk slots'))
          end
      end.

(** [reuse_cache_tree(args, root, do_run_build_script, for_cache, cached)] *)
Definition reuse_cache_tree (args : CommandLineArguments) (root : string)
    (do_run_build_script for_cache cached : bool) (fs : FS) : option (bool * FS) :=
  if cached then Some (true, fs)
  else if negb (incremental args) then Some (false, fs)
  else if for_cache then Some (false, fs)
  else if is_disk_rw (output_format args) then Some (false, fs)
  else
    match cache_name args do_run_build_script with
    | None => Some (false, fs)
    | Some fname =>
        if bool_decide (is_Some (fs !! fname)) then
          fs' ← copy_path fname root fs; Some (true, fs')
        else Some (true, fs)
    end.

(** [save_cache(args, root, raw, cache_path)] *)
Definition save_cache (args : CommandLineArguments) (root : string)
    (raw : option string) (cache_path : option string) (fs : FS) : option FS :=
  if is_disk_rw (output_format args) then
    match raw, cache_path with
    | Some raw, Some cache_path => move raw cache_path fs
    | _, _ => Some fs
    end
  else
    match cache_path with
    | None => Some fs
    | Some cache_path => move root cache_path (unlink_try_hard cache_path fs)
    end.

(** [remove_artifacts(args, root, raw, archive, do_run_build_script,
    for_cache=False)].  [del raw] and [del archive] unbind the function's
    own parameters and have no effect outside. *)
Definition remove_artifacts (env : Env) (args : CommandLineArguments)
    (root : string) (do_run_build_script for_cache : bool) (fs : FS) : FS :=
  if for_cache || do_run_build_script then
    let fs := unlink_try_hard root fs in
    let fs := unlink_try_hard (var_tmp env root) fs in
    if usr_only args then unlink_try_hard (root_home env root) fs else fs
  else fs.

(** [need_cache_images(args)]; the two [assert]s fail on a missing name. *)
Definition need_cache_images (args : CommandLineArguments) (fs : FS) : option bool :=
  if negb (incremental args) then Some false
  else if 1 <? force_count args then Some true
  else
    pre_dev ← cache_pre_dev args;
    pre_inst ← cache_pre_inst args;
    Some (negb (bool_decide (is_Some (fs !! pre_dev)))
          || negb (bool_decide (is_Some (fs !! pre_inst)))).

(** ** Generated root and verity *)

(** [make_generated_root(args, root, for_cache)] with [generate_ext4],
    [generate_btrfs] and [generate_squashfs]: the blob, when one is
    made. *)
Definition make_generated_root (env : Env) (args : CommandLineArguments)
    (for_cache : bool) : option string * list Event :=
  if negb (is_generated_root args) then (None, [])
  else if bool_decide (kind (output_format args) = gpt_ext4) then
    if for_cache then (None, []) else (Some (tmp_generated_root env), [External "generate_ext4"])
  else if bool_decide (kind (output_format args) = gpt_btrfs) then
    if for_cache then (None, []) else (Some (tmp_generated_root env), [External "generate_btrfs"])
  else if is_squashfs (output_format args) then
    if for_cache then (None, []) else (Some (tmp_generated_root env), [External "generate_squashfs"])
  else (None, []).

(** [insert_generated_root(args, raw, loopdev, image, for_cache)];
    [done] are the events of the build so far. *)
Definition insert_generated_root (env : Env) (args : CommandLineArguments)
    (slots : Slots) (done : list Event) (raw loopdev image : option string)
    (for_cache : bool) : option (Slots * list Event) :=
  if negb (is_generated_root args) then Some (slots, [])
  else if negb (is_disk (output_format args)) then Some (slots, [])
  else if for_cache then Some (slots, [])
  else
    raw ← raw; loopdev ← loopdev; image ← image;
    partno ← root_partno slots;
    pair ← gpt_root_native (machine env) (architecture args) (usr_only args);
    r ← insert_partition args slots (sfdisk_dump env done) raw loopdev partno
           image (st_size env image) (root_partition_name args false)
           (pair_root pair) (read_only args) None;
    Some (set_root_size (Some (ins_returned r)) (ins_slots r), ins_events r).

(** The loop of [make_verity] over the lines of the tool's output. *)
Fixpoint find_root_hash (lines : list string) : option string :=
  match lines with
  | [] => None
  | line :: rest =>
      if startswith "Root hash:" line then Some (strip (slice_from 10 line))
      else find_root_hash rest
  end.

(** [make_verity(args, dev, do_run_build_script, for_cache)]; [dev] tells
    whether a device was passed.  The result is the pair of the hash file
    and the root hash, when they are made. *)
Definition make_verity (env : Env) (args : CommandLineArguments) (dev : bool)
    (do_run_build_script for_cache : bool)
  : option (option (string * string) * list Event) :=
  if do_run_build_script || negb (verity args) then Some (None, [])
  else if for_cache then Some (None, [])
  else
    guard (dev = true);;
    h ← find_root_hash (veritysetup_stdout env);
    Some (Some (tmp_verity env, h),
          [Run ["veritysetup"; "format"; "<dev>"; tmp_verity env] ""]).

(** [str(x)] for an [Optional[int]]. *)
Definition str_opt (x : option Z) : string :=
  match x with
  | Some n => pretty n
  | None => "None"
  end.

(** [patch_root_uuid(args, loopdev, root_hash, for_cache)] *)
Definition patch_root_uuid (args : CommandLineArguments) (slots : Slots)
    (loopdev : option string) (root_hash : option string) (for_cache : bool)
  : option (list Event) :=
  match root_hash with
  | None => Some []
  | Some root_hash =>
      loopdev ← loopdev;
      if for_cache then Some []
      else
        (* Use the first 128bit of the root hash as partition UUID of the
           root partition *)
        u ← UUID_of_hex (slice_to 32 root_hash);
        Some [Run ["sfdisk"; "--part-uuid"; loopdev; str_opt (root_partno slots);
                   UUID_str u] ""]
  end.

(** [insert_verity(args, raw, loopdev, verity, root_hash, for_cache)] *)
Definition insert_verity (env : Env) (args : CommandLineArguments)
    (slots : Slots) (done : list Event) (raw loopdev verity root_hash : option string)
    (for_cache : bool) : option (Slots * list Event) :=
  match verity with
  | None => Some (slots, [])
  | Some verity =>
      if for_cache then Some (slots, [])
      else
        loopdev ← loopdev; raw ← raw; root_hash ← root_hash;
        partno ← verity_partno slots;
        (* Use the final 128 bit of the root hash as partition UUID of the
           verity partition *)
        u ← UUID_of_hex (slice_last 32 root_hash);
        pair ← gpt_root_native (machine env) (architecture args) (usr_only args);
        r ← insert_partition args slots (sfdisk_dump env done) raw loopdev partno
               verity (st_size env verity) (root_partition_name args true)
               (pair_verity pair) true (Some u);
        Some (ins_slots r, ins_events r)
  end.

(** [extract_partition(args, dev, do_run_build_script, for_cache)] *)
Definition extract_partition (env : Env) (args : CommandLineArguments) (dev : bool)
    (do_run_build_script for_cache : bool) : option (option string) :=
  if do_run_build_script || for_cache || negb (split_artifacts args) then Some None
  else guard (dev = true);; Some (Some (tmp_split_root env)).

(** [extract_unified_kernel(args, root, do_run_build_script, for_cache,
    mount)]: exactly one kernel has to be found. *)
Definition extract_unified_kernel (env : Env) (args : CommandLineArguments)
    (do_run_build_script for_cache : bool) : option (option string) :=
  if do_run_build_script || for_cache || negb (split_artifacts args)
     || negb (bootable args)
  then Some None
  else
    match efi_kernels env with
    | [_] => Some (Some (tmp_split_kernel env))
    | _ => None
    end.

(** What [setup_ssh] returns. *)
Definition setup_ssh (env : Env) (args : CommandLineArguments)
    (do_run_build_script for_cache : bool) : option string :=
  if do_run_build_script || negb (ssh args) then None
  else if for_cache then None
  else Some (tmp_sshkey env).

(** What [make_tar(...) or make_cpio(...)] returns. *)
Definition make_archive (env : Env) (args : CommandLineArguments)
    (do_run_build_script for_cache : bool) : option string :=
  if do_run_build_script then None
  else if negb (bool_decide (kind (output_format args) = tar)
                || bool_decide (kind (output_format args) = cpio)) then None
  else if for_cache then None
  else Some (tmp_archive env).

(** [a or b] on optional file objects. *)
Definition or_else {A} (a b : option A) : option A :=
  match a with
  | Some _ => a
  | None => b
  end.

(** ** [build_image] *)

(** What the part of [build_image] between the unmounting of the tree and
    the unified kernel leaves behind. *)
Record Partitioned := mkPartitioned {
  p_generated_root : option string;
  p_split_root : option string;
  p_verity : option string;
  p_root_hash : option string;
  p_slots : Slots;
  p_events : list Event
}.

(** The statements of [build_image] from [make_generated_root] to
    [insert_verity]; [done] are the events of the build before them, [dev]
    tells whether [encrypted.root] is a device. *)
Definition build_image_partitions (env : Env) (args : CommandLineArguments)
    (slots : Slots) (done : list Event) (raw loopdev : option string) (dev : bool)
    (do_run_build_script for_cache : bool) : option Partitioned :=
  let '(generated_root, ev_gen) := make_generated_root env args for_cache in
  '(slots1, ev_root) ←
    insert_generated_root env args slots (done ++ ev_gen) raw loopdev
      generated_root for_cache;
  split_root ←
    (if split_artifacts args then
       match generated_root with
       | Some g => Some (Some g)
       | None => extract_partition env args dev do_run_build_script for_cache
       end
     else Some None);
  '(made, ev_make) ← make_verity env args dev do_run_build_script for_cache;
  let verity := fst <$> made in
  let root_hash := snd <$> made in
  ev_patch ← patch_root_uuid args slots1 loopdev root_hash for_cache;
  '(slots2, ev_verity) ←
    insert_verity env args slots1 (done ++ ev_gen ++ ev_root ++ ev_make ++ ev_patch)
      raw loopdev verity root_hash for_cache;
  Some (mkPartitioned generated_root split_root verity root_hash slots2
          (ev_gen ++ ev_root ++ ev_make ++ ev_patch ++ ev_verity)).

(** The mount helpers make sure the root of the tree is a directory
    ([os.makedirs(root, 0o755, True)]). *)
Definition ensure_dir (path : string) (fs : FS) : option FS :=
  match fs !! path with
  | None => Some (<[path := Dir ENil]> fs)
  | Some (Dir _) => Some fs
  | Some _ => None
  end.

(** The image a pass works on and whether it came from a cache: the
    statements of [build_image] up to [create_image]; [None] for the
    result stands for the two early returns of an empty bundle. *)
Definition build_image_setup (env : Env) (args : CommandLineArguments)
    (do_run_build_script for_cache : bool) (w : World)
  : option (option (option string * bool) * list Event * World) :=
  if bool_decide (build_script args = None) && do_run_build_script
  then Some (None, [], w)
  else
    '(raw, cached, ev, w) ← reuse_cache_image env args do_run_build_script for_cache w;
    if for_cache && cached then Some (None, ev, w)
    else if cached then
      f ← raw;
      '(slots', ev') ← refresh_partition_table env args f (slots w);
      Some (Some (raw, true), ev ++ ev', mkWorld (fs w) slots')
    else
      '(raw, ev', w') ← create_image env args w;
      Some (Some (raw, false), ev ++ ev', w').

(** [build_image(args, root, do_run_build_script=..., for_cache=...)]: the
    bundle, the events and the state afterwards.  The steps that format,
    mount and populate the tree are external tools and appear as
    [External] events; what they write into the tree is not tracked.  Of
    the files of a pass, [fs] holds the tree, the image and the cache
    artifacts; the other temporaries the bundle names (archive, generated
    root, verity data, split artifacts, key) and the build directory are
    not in it. *)
Definition build_image (env : Env) (args : CommandLineArguments) (root : string)
    (do_run_build_script for_cache : bool) (w : World)
  : option (BuildOutput * list Event * World) :=
  '(setup, ev, w) ← build_image_setup env args do_run_build_script for_cache w;
  match setup with
  | None => Some (BuildOutput_empty, ev, w)
  | Some (raw, cached) =>
      let loopdev := match raw with
                     | Some _ => Some (env_loopdev env)
                     | None => None
                     end in
      let attach := match raw with
                    | Some f => [Run ["losetup"; "--find"; "--show"; "--partscan"; f] ""]
                    | None => []
                    end in
      let detach := match raw with
                    | Some _ => [Run ["losetup"; "--detach"; env_loopdev env] ""]
                    | None => []
                    end in
      let encrypted_root :=
        is_disk (output_format args) && bool_decide (is_Some (root_partno (slots w))) in
      fs1 ← ensure_dir root (fs w);
      '(cached_tree, fs2) ←
        reuse_cache_tree args root do_run_build_script for_cache cached fs1;
      let sshkey := setup_ssh env args do_run_build_script for_cache in
      let ev := ev ++ attach ++ [External "prepare, format and mount";
                                 External "install"; External "finalize tree"] in
      p ← build_image_partitions env args (slots w) ev raw loopdev encrypted_root
            do_run_build_script for_cache;
      split_kernel ←
        (if split_artifacts args
         then extract_unified_kernel env args do_run_build_script for_cache
         else Some None);
      Some (mkBuildOutput (or_else raw (p_generated_root p))
              (make_archive env args do_run_build_script for_cache)
              (p_root_hash p) sshkey (p_split_root p)
              (if split_artifacts args then p_verity p else None) split_kernel,
            ev ++ p_events p
               ++ [External "install_unified_kernel, secure_boot_sign"] ++ detach,
            mkWorld fs2 (p_slots p))
  end.

(** ** [build_stuff] *)

(** What the pipeline does, stage by stage: the message of a
    [complete_step], a finished [build_image] with its arguments, its
    bundle and its events, and the calls that follow it. *)
Inductive StageEvent :=
  | Step (msg : string)
  | Built (do_run_build_script for_cache : bool) (out : BuildOutput)
      (events : list Event)
  | SavedCache (raw : option string) (cache_path : option string)
  | RanBuildScript
  | RemovedArtifacts (do_run_build_script for_cache : bool).

Definition msg_cache_dev : string :=
  "Running first (development) stage to generate cached copy…".
Definition msg_cache_final : string :=
  "Running second (final) stage to generate cached copy…".
Definition msg_dev : string := "Running first (development) stage…".
Definition msg_final : string := "Running second (final) stage…".

(** One of the two blocks under [if need_cache_images(args)]:
    [build_image(..., for_cache=True)], [save_cache] and
    [remove_artifacts], the last without a [for_cache] argument, so that
    its default [False] applies. *)
Definition cache_pass (env : Env) (args : CommandLineArguments) (root : string)
    (do_run_build_script : bool) (w : World)
  : option (BuildOutput * list StageEvent * World) :=
  '(image, ev, w) ← build_image env args root do_run_build_script true w;
  let cache_path := cache_name args do_run_build_script in
  fs' ← save_cache args root (raw image) cache_path (fs w);
  let fs' := remove_artifacts env args root do_run_build_script false fs' in
  Some (image,
        [ Step (if do_run_build_script then msg_cache_dev else msg_cache_final);
          Built do_run_build_script true image ev;
          SavedCache (raw image) cache_path;
          RemovedArtifacts do_run_build_script false ],
        mkWorld fs' (slots w)).

(** The block under [if need_cache_images(args)]. *)
Definition cache_stage (env : Env) (args : CommandLineArguments) (root : string)
    (image : BuildOutput) (w : World)
  : option (BuildOutput * list StageEvent * World) :=
  '(image, log_dev, w) ←
    match build_script args with
    | Some _ => cache_pass env args root true w
    | None => Some (image, [], w)
    end;
  '(image, log_final, w) ← cache_pass env args root false w;
  Some (image, log_dev ++ log_final, w).

(** [build_stuff(args)] up to the hand-over of the bundle to the
    finalization steps: the last bundle, the log and the state. *)
Definition build_stuff (env : Env) (args : CommandLineArguments) (root : string)
    (w : World) : option (BuildOutput * list StageEvent * World) :=
  let image := BuildOutput_empty in
  need ← need_cache_images args (fs w);
  '(image, log, w) ←
    (if (need : bool) then cache_stage env args root image w else Some (image, [], w));
  '(image, log, w) ←
    match build_script args with
    | Some _ =>
        '(image, ev, w) ← build_image env args root true false w;
        Some (image,
              log ++ [Step msg_dev; Built true false image ev; RanBuildScript;
                      RemovedArtifacts true false],
              mkWorld (remove_artifacts env args root true false (fs w)) (slots w))
    | None => Some (image, log, w)
    end;
  if negb (skip_final_phase args) then
    '(image, ev, w) ← build_image env args root false false w;
    Some (image, log ++ [Step msg_final; Built false false image ev], w)
  else Some (image, log, w).

(** ** Statements the properties below are phrased with *)

(** The first usable offset as the specification words it: by whether
    partitions exist, then by whether a first LBA is configured. *)
Definition first_usable_offset_spec (t : PartitionTable) : option Z :=
  match partitions t with
  | _ :: _ => roundup (default 0 (last_partition_sector t)) (grain t)
  | [] =>
      match first_lba t with
      | Some lba => Some (lba * sector_size t)
      | None =>
          f ← footer_size t;
          roundup (sector_size t + f) (grain t)
      end
  end.

(** A table records a last occupied sector exactly when it has
    partitions. *)
Definition table_consistent (t : PartitionTable) : Prop :=
  partitions t ≠ [] ↔ truthy (last_partition_sector t) = true.

(** The largest end among descriptors, as the loop of [read] accumulates
    it from [last_sector = 0]. *)
Fixpoint ends_max (acc : Z) (lines : list string) : Z :=
  match lines with
  | [] => acc
  | line :: rest =>
      ends_max (match descriptor_end line with
                | Some (Some e) => Z.max acc e
                | _ => acc
                end) rest
  end.

(** ** A sequence of insertions *)

(** Insertions one after the other on a fresh image.  [partitioner] is
    the host partitioner seen from the engine: from the table written to
    it to the lines its dump prints at the next read.  The result lists
    the size of the device after each call. *)
Fixpoint insert_sequence (partitioner : list string → list string)
    (args : CommandLineArguments) (slots : Slots) (dump : list string)
    (partno : Z) (blobs : list Z) : option (list Z) :=
  match blobs with
  | [] => Some []
  | b :: rest =>
      r ← insert_partition args slots dump "image.raw" "/dev/loop0" partno
             "blob" b "Partition" GPT_ROOT_X86_64 false None;
      sizes ← insert_sequence partitioner args (ins_slots r)
                 (partitioner (ins_script r)) (partno + 1) rest;
      Some (ins_size r :: sizes)
  end.

(** The sum of the blob sizes, each rounded up to the sector size. *)
Fixpoint sector_rounded_sum (sector : Z) (blobs : list Z) : option Z :=
  match blobs with
  | [] => Some 0
  | b :: rest =>
      x ← roundup b sector; y ← sector_rounded_sum sector rest; Some (x + y)
  end.

(** The geometry as the specification states it: after the [k]-th call
    the device has the size of the first usable offset, the blobs inserted
    so far and the footer, rounded up to 4096. *)
Definition geometry_as_stated (partitioner : list string → list string)
    (args : CommandLineArguments) (slots : Slots) (blobs : list Z) : Prop :=
  ∀ sizes k size,
    insert_sequence partitioner args slots [] 1 blobs = Some sizes →
    sizes !! k = Some size →
    ∃ off foot total,
      first_usable_offset (empty (gpt_first_lba args)) = Some off
      ∧ footer_size (empty (gpt_first_lba args)) = Some foot
      ∧ sector_rounded_sum 512 (take (S k) blobs) = Some total
      ∧ roundup (off + total + foot) 4096 = Some size.

(** The numbers of the root and of the verity partition: the verity
    partition, when there is one, has the number after the root's. *)
Definition numbered (args : CommandLineArguments) (s : Slots) : Prop :=
  ∃ pn, root_partno s = Some pn
        ∧ verity_partno s = (if verity args then Some (pn + 1) else None).

(** The numbers [determine_partition_table] gives out before the root's,
    in the order of the roles. *)
Definition numbers_given (n : Numbers) : list Z :=
  omap id [ n_esp n; n_bios n; n_xbootldr n; n_swap n;
            n_home n; n_srv n; n_var n; n_tmp n ].

(** ** Which fields a bundle has *)

Definition present {A} (o : option A) : bool :=
  match o with
  | Some _ => true
  | None => false
  end.

Record Presence := mkPresence {
  has_raw : bool;
  has_archive : bool;
  has_root_hash : bool;
  has_sshkey : bool;
  has_split_root : bool;
  has_split_verity : bool;
  has_split_kernel : bool
}.

Definition presence (b : BuildOutput) : Presence :=
  mkPresence (present (raw b)) (present (archive b)) (present (root_hash b))
    (present (sshkey b)) (present (split_root b)) (present (split_verity b))
    (present (split_kernel b)).

(** Whether the cache artifact of a stage exists. *)
Definition cache_exists (args : CommandLineArguments) (do_run_build_script : bool)
    (fs : FS) : bool :=
  match cache_name args do_run_build_script with
  | Some fname => bool_decide (is_Some (fs !! fname))
  | None => false
  end.

(** The fields of the bundle of a pass, from the configuration, the kind
    of pass and the existence of the stage's cache artifact. *)
Definition expected_presence (args : CommandLineArguments)
    (do_run_build_script for_cache exists_cache : bool) : Presence :=
  let nothing := mkPresence false false false false false false false in
  let consult := incremental args && is_disk_rw (output_format args) in
  if bool_decide (build_script args = None) && do_run_build_script then nothing
  else if for_cache && consult && exists_cache then nothing
  else
    let cached := consult && negb for_cache && exists_cache in
    let generated :=
      is_generated_root args && negb for_cache
      && (bool_decide (kind (output_format args) = gpt_ext4)
          || bool_decide (kind (output_format args) = gpt_btrfs)
          || is_squashfs (output_format args)) in
    let final := negb do_run_build_script && negb for_cache in
    mkPresence
      (cached || is_disk (output_format args) || generated)
      (final && (bool_decide (kind (output_format args) = tar)
                 || bool_decide (kind (output_format args) = cpio)))
      (final && verity args)
      (final && ssh args)
      (split_artifacts args && (generated || final))
      (split_artifacts args && final && verity args)
      (split_artifacts args && final && bootable args).

(** The presence of the fields as the specification states it: settled by
    the configuration and the kind of pass alone. *)
Definition presence_as_stated : Prop :=
  ∀ env1 env2 args root do_run_build_script for_cache w1 w2 out1 ev1 w1' out2 ev2 w2',
    build_image env1 args root do_run_build_script for_cache w1 = Some (out1, ev1, w1') →
    build_image env2 args root do_run_build_script for_cache w2 = Some (out2, ev2, w2') →
    presence out1 = presence out2.

(** ** Counting passes *)

Definition is_built (do_run_build_script for_cache : bool) (e : StageEvent) : bool :=
  match e with
  | Built d c _ _ => Bool.eqb d do_run_build_script && Bool.eqb c for_cache
  | _ => false
  end.

Definition count_built (do_run_build_script for_cache : bool)
    (log : list StageEvent) : nat :=
  length (List.filter (is_built do_run_build_script for_cache) log).


(** ** Trees and their copies *)


(** No link of the destination stands where the source has a directory,
    at any level: the copy never goes through a link. *)
Fixpoint links_clear_node (x : Node) (y : option Node) : bool :=
  match x with
  | Dir es =>
      match y with
      | Some (Symlink _) => false
      | Some (Dir ds) => links_clear es ds
      | _ => true
      end
  | _ => true
  end
with links_clear (src dst : Entries) : bool :=
  match src with
  | ENil => true
  | ECons n x r => links_clear_node x (entry_lookup n dst) && links_clear r dst
  end.





(** ** Concrete inputs for the examples *)

Definition fmt_gpt_ext4 : OutputFormat := mkOutputFormat gpt_ext4 true true false.
Definition fmt_gpt_squashfs : OutputFormat := mkOutputFormat gpt_squashfs true false true.
Definition fmt_directory : OutputFormat := mkOutputFormat directory false false false.

(** A configuration by the settings the examples vary; the rest is fixed:
    no sizes but a 256 MiB ESP, a UEFI-bootable x86-64 image named
    [image.raw] with caches [image.raw.cache-pre-dev] and
    [image.raw.cache-pre-inst]. *)
Definition example_args (fmt : OutputFormat) (encrypt : option string)
    (verity incremental : bool) (build_script : option string)
  : CommandLineArguments :=
  {| output_format := fmt; gpt_first_lba := None; encrypt := encrypt;
     passphrase := Some "secret";
     bootable := true; boot_protocols := ["uefi"];
     esp_size := Some (256 * 1024 * 1024); xbootldr_size := None;
     swap_size := None; home_size := None; srv_size := None; var_size := None;
     tmp_size := None; verity_size := None; minimize := false; usr_only := false;
     read_only := false; verity := verity; split_artifacts := false;
     architecture := Some "x86_64"; image_id := None; image_version := None;
     incremental := incremental; force_count := 0; build_script := build_script;
     cache_pre_dev := Some "image.raw.cache-pre-dev";
     cache_pre_inst := Some "image.raw.cache-pre-inst";
     skip_final_phase := false; ssh := false; output := "image.raw" |}.

(** A configuration with many partitions: ESP, BIOS boot, swap, home and
    temporary data before the root. *)
Definition example_args_many : CommandLineArguments :=
  {| output_format := fmt_gpt_ext4; gpt_first_lba := None; encrypt := None;
     passphrase := None;
     bootable := true; boot_protocols := ["uefi"; "bios"];
     esp_size := Some (256 * 1024 * 1024); xbootldr_size := None;
     swap_size := Some (1024 * 1024 * 1024);
     home_size := Some (1024 * 1024 * 1024); srv_size := None;
     var_size := None; tmp_size := Some (512 * 1024 * 1024);
     verity_size := None; minimize := false; usr_only := false;
     read_only := false; verity := true; split_artifacts := false;
     architecture := None; image_id := None; image_version := None;
     incremental := false; force_count := 0; build_script := None;
     cache_pre_dev := None; cache_pre_inst := None;
     skip_final_phase := false; ssh := false; output := "image.raw" |}.

(** A configuration whose only sized partition is the extended boot
    loader partition, with a generated root and nothing to boot. *)
Definition example_args_xbootldr : CommandLineArguments :=
  {| output_format := fmt_gpt_squashfs; gpt_first_lba := None; encrypt := None;
     passphrase := None;
     bootable := false; boot_protocols := [];
     esp_size := None; xbootldr_size := Some (128 * 1024 * 1024);
     swap_size := None; home_size := None; srv_size := None;
     var_size := None; tmp_size := None;
     verity_size := None; minimize := false; usr_only := false;
     read_only := false; verity := false; split_artifacts := false;
     architecture := None; image_id := None; image_version := None;
     incremental := false; force_count := 0; build_script := None;
     cache_pre_dev := None; cache_pre_inst := None;
     skip_final_phase := false; ssh := false; output := "image.raw" |}.

(** [args] before any build has assigned to it. *)
Definition slots_fresh : Slots :=
  mkSlots false None None None None None None None None None None None.

(** What the partitioner prints for an image with one partition of one
    sector at sector 40. *)
Definition dump_one_sector : list string :=
  [ "label: gpt"; "device: /dev/loop0"; "unit: sectors"; "first-lba: 40";
    "sector-size: 512"; "";
    "/dev/loop0p1 : start=          40, size=           1, type=4F68BCE3-E8CD-4DB1-96E7-FBCAF984B709" ].

Definition table_one_partition : PartitionTable :=
  mkPartitionTable ["/dev/loop0p1 : start=40, size=524288, type=C12A7328-F81F-11D2-BA4B-00A0C93EC93B"]
    (Some 268455936) 512 (Some 40) 4096.

(** A host: an x86-64 machine whose partitioner prints [dump_one_sector],
    blobs of 4096 bytes, and a verity tool that prints a SHA-256 root
    hash. *)
Definition example_root_hash : string :=
  "0123456789abcdef0123456789abcdeffedcba9876543210fedcba9876543210".

Definition example_env : Env :=
  {| machine := "x86_64"; env_loopdev := "/dev/loop0";
     sfdisk_dump := λ _,
       [ "label: gpt"; "first-lba: 40"; "sector-size: 512"; "";
         "/dev/loop0p1 : start=          40, size=      524288, type=C12A7328-F81F-11D2-BA4B-00A0C93EC93B" ];
     st_size := λ _, 4096;
     veritysetup_stdout :=
       ["VERITY header information for /dev/loop0p2"; "Hash algorithm:  sha256";
        "Root hash:      " +:+ example_root_hash; ""];
     efi_kernels := ["linux.efi"];
     reflink := true; pending := λ _, 0%nat;
     tmp_raw := ".mkosi-raw"; tmp_generated_root := ".mkosi-squashfs";
     tmp_verity := ".mkosi-verity"; tmp_archive := ".mkosi-archive";
     tmp_split_root := ".mkosi-split-root"; tmp_split_kernel := ".mkosi-split-kernel";
     tmp_sshkey := ".mkosi-sshkey";
     var_tmp := λ root, root +:+ "/../var-tmp";
     root_home := λ root, root +:+ "/../home" |}.

Definition world_fresh : World := mkWorld ∅ slots_fresh.

(** A state in which both cache images exist. *)
Definition world_cached : World :=
  mkWorld (<["image.raw.cache-pre-dev" := File "dev image"]>
           (<["image.raw.cache-pre-inst" := File "final image"]> ∅)) slots_fresh.

(** Files with a cached tree that has [usr/bin] and a root that has
    [etc] and a file [usr]. *)
Definition fs_cache_and_root : FS :=
  <["cache" := Dir (ECons "usr" (Dir (ECons "bin" (File "sh") ENil)) ENil)]>
    (<["root" := Dir (ECons "etc" (Dir ENil) (ECons "usr" (File "old") ENil))]> ∅).

(** A cached tree with a file, a link and a nested directory, and a
    state in which it is the cache of the final stage while the root of
    the pass has an [etc] of its own. *)
Definition cached_tree : Entries :=
  ECons "usr" (Dir (ECons "bin" (Dir (ECons "sh" (File "#!") ENil)) ENil))
    (ECons "lib" (Symlink "usr/lib") (ECons "os-release" (File "ID=x") ENil)).



(** Files with the image of a pass and a directory under the cache
    name. *)
Definition fs_image_and_cache_dir : FS :=
  <["/var/tmp/.mkosi-raw" := File "image"]>
    (<["image.raw.cache-pre-inst" := Dir (ECons "old" (File "o") ENil)]> ∅).

(* ===================================================================== *)
(** * Properties *)
(* ===================================================================== *)

(** ** Arithmetic *)

Lemma roundup_Some x step : step ≠ 0 →
  roundup x step = Some (((x + step - 1) / step) * step).
Proof. intros H. unfold roundup. by rewrite decide_False. Qed.

Lemma roundup_multiple x step r :
  roundup x step = Some r → (step | r).
Proof.
  unfold roundup. case_decide; [done|]. intros [= <-].
  exists ((x + step - 1) / step). lia.
Qed.

Lemma roundup_ge x step r :
  0 < step → roundup x step = Some r → x ≤ r < x + step.
Proof.
  intros Hs. unfold roundup. case_decide; [lia|]. intros [= <-].
  pose proof (Z.div_mod (x + step - 1) step ltac:(lia)) as Hdm.
  pose proof (Z.mod_pos_bound (x + step - 1) step Hs) as Hb.
  lia.
Qed.

Lemma roundup_fixed x step :
  0 < step → (step | x) → roundup x step = Some x.
Proof.
  intros Hs [k ->]. rewrite roundup_Some by lia. f_equal.
  replace (k * step + step - 1) with ((step - 1) + k * step) by lia.
  rewrite Z.div_add by lia. rewrite Z.div_small by lia. lia.
Qed.

Lemma ceil_div_spec a b q :
  0 < b → a ≤ 0 ∨ b < a * 2 ^ 1075 →
  ceil_div a b = Some q → (q - 1) * b < a ≤ q * b.
Proof.
  intros Hb Hq. unfold ceil_div. case_decide; [lia|]. case_decide; [lia|].
  intros [= <-].
  pose proof (Z.div_mod (- a) b ltac:(lia)) as Hdm.
  pose proof (Z.mod_pos_bound (- a) b Hb) as Hm.
  nia.
Qed.


(** ** The footer *)

(** For a positive sector size below 2^53 the footer is one sector more
    than the least number of sectors that hold the 128 entries of 128
    bytes. *)
Lemma footer_size_positive t :
  0 < sector_size t < 2 ^ 53 →
  ∃ pea, footer_size t = Some ((1 + pea) * sector_size t) ∧
         (pea - 1) * sector_size t < 128 * 128 ≤ pea * sector_size t.
Proof.
  intros [Hs Hb]. unfold footer_size, footer_size_of.
  assert (2 ^ 53 ≤ 128 * 128 * 2 ^ 1075) as Hbig
    by (apply Z.leb_le; vm_compute; reflexivity).
  destruct (ceil_div (128 * 128) (sector_size t)) as [q|] eqn:E.
  - exists q. split; [done|]. apply ceil_div_spec; [done|right; lia|done].
  - unfold ceil_div in E. case_decide; [lia|]. by case_decide.
Qed.

(** From a sector size of 2^1089 on the quotient is rounded to 0.0 and the
    footer is the header sector alone. *)
Example footer_size_underflow :
  footer_size (mkPartitionTable [] None (2 ^ 1089) None 4096) = Some (2 ^ 1089)
  ∧ ∃ pea, footer_size (mkPartitionTable [] None (2 ^ 1089 - 1) None 4096)
           = Some ((1 + pea) * (2 ^ 1089 - 1)) ∧ pea = 1.
Proof. split; [|exists 1; split; [|done]]; vm_compute; reflexivity. Qed.

(** C1, as the code has it: with 512-byte sectors the footer is 33
    sectors, that is 16896 bytes: one header sector and the 32 sectors of
    the 128-entry array. *)
Theorem footer_size_512 parts last lba g :
  footer_size (mkPartitionTable parts last 512 lba g) = Some 16896
  ∧ 16896 = (1 + 32) * 512 ∧ 32 * 512 = 128 * 128.
Proof. done. Qed.

(** C1, as stated: the footer of a table with 512-byte sectors is not
    17408 bytes. *)
Lemma footer_size_512_not_17408 :
  sector_size (empty None) = 512 ∧ footer_size (empty None) ≠ Some 17408.
Proof. split; [done|]. vm_compute. discriminate. Qed.

(** 17408 bytes is what the header takes on an empty table: the
    protective MBR sector together with the footer. *)
Example header_512_is_17408 :
  (f ← footer_size (empty None); Some (sector_size (empty None) + f)) = Some 17408.
Proof. done. Qed.

(** ** Reading a table *)

Lemma ends_max_app acc l1 l2 :
  ends_max acc (l1 ++ l2) = ends_max (ends_max acc l1) l2.
Proof. revert acc. induction l1 as [|a l1 IH]; intros acc; simpl; [done|apply IH]. Qed.

Lemma ends_max_ge acc lines : acc ≤ ends_max acc lines.
Proof.
  revert acc. induction lines as [|a l IH]; intros acc; simpl; [lia|].
  destruct (descriptor_end a) as [[e|]|]; etrans; [|apply IH| |apply IH| |apply IH]; lia.
Qed.

Lemma ends_max_pos acc lines :
  0 ≤ acc → lines ≠ [] →
  (∀ line, line ∈ lines → ∃ e, descriptor_end line = Some (Some e) ∧ 0 < e) →
  0 < ends_max acc lines.
Proof.
  intros Hacc Hne Hall. destruct lines as [|a l]; [done|]. simpl.
  destruct (Hall a) as (e & -> & He); [left|].
  pose proof (ends_max_ge (Z.max acc e) l). lia.
Qed.

(** One iteration either leaves the table alone or appends the (stripped)
    line and folds its end into the running maximum. *)
Lemma read_line_table st line st' :
  read_line st line = Some st' →
  ∃ added, rs_table st' = rs_table st ++ added
           ∧ rs_last_sector st' = ends_max (rs_last_sector st) added.
Proof.
  unfold read_line. intros H.
  destruct (if startswith "sector-size:" (strip line) then _ else _) as [ss|];
    simpl in H; [|done].
  destruct (if startswith "first-lba:" (strip line) then _ else _) as [fl|];
    simpl in H; [|done].
  destruct (String.eqb (strip line) "").
  { injection H as <-. exists []. by rewrite app_nil_r. }
  destruct (negb (rs_in_body st)).
  { injection H as <-. exists []. by rewrite app_nil_r. }
  destruct (descriptor_end (strip line)) as [e|] eqn:E; simpl in H; [|done].
  injection H as <-. exists [strip line]. simpl. rewrite E. by destruct e.
Qed.

Lemma read_loop_table lines : ∀ st st',
  read_loop st lines = Some st' →
  ∃ added, rs_table st' = rs_table st ++ added
           ∧ rs_last_sector st' = ends_max (rs_last_sector st) added.
Proof.
  induction lines as [|line rest IH]; intros st st' H; simpl in H.
  - injection H as <-. exists []. by rewrite app_nil_r.
  - destruct (read_line st line) as [st1|] eqn:E1; simpl in H; [|done].
    apply read_line_table in E1 as (a1 & T1 & L1).
    apply IH in H as (a2 & T2 & L2).
    exists (a1 ++ a2). rewrite T2, T1, L2, L1, ends_max_app. by rewrite app_assoc.
Qed.

(** What [read] stores: the descriptors, the largest end among them
    times the sector size, and the default grain. *)
Lemma read_table dump t :
  read dump = Some t →
  last_partition_sector t = Some (ends_max 0 (partitions t) * sector_size t)
  ∧ grain t = default_grain.
Proof.
  unfold read. destruct (read_loop read_init dump) as [st|] eqn:E; simpl; [|done].
  intros [= <-]. simpl. apply read_loop_table in E as (added & T & L).
  simpl in T, L. by rewrite T, L.
Qed.

(** A table read from a dump whose descriptors all carry a start and a
    size with a positive end records a last sector exactly when it has
    partitions. *)
Lemma read_consistent dump t :
  read dump = Some t →
  sector_size t ≠ 0 →
  (∀ line, line ∈ partitions t → ∃ e, descriptor_end line = Some (Some e) ∧ 0 < e) →
  table_consistent t.
Proof.
  intros H Hss Hall. apply read_table in H as [Hl _].
  unfold table_consistent. rewrite Hl. simpl.
  destruct (partitions t) as [|a l] eqn:Ep.
  - simpl. split; [done|]. by destruct (sector_size t).
  - split; [intros _|done].
    assert (0 < ends_max 0 (a :: l)) by (apply ends_max_pos; [lia|done|done]).
    apply negb_true_iff, Z.eqb_neq. nia.
Qed.

Lemma empty_consistent lba : table_consistent (empty lba).
Proof. unfold table_consistent. simpl. split; [done|discriminate]. Qed.

(** ** The first usable offset *)

(** On a table that records a last occupied sector exactly when it has
    partitions (every table made by [empty], and every table read from a
    dump whose descriptors have a start and a size), the case split by
    the descriptors and the one the code makes agree. *)
Lemma first_usable_offset_consistent t :
  table_consistent t →
  first_usable_offset t = first_usable_offset_spec t.
Proof.
  unfold table_consistent, first_usable_offset, first_usable_offset_spec.
  intros [H1 H2].
  destruct (partitions t) as [|a l].
  - destruct (truthy (last_partition_sector t)); [|done].
    by specialize (H2 eq_refl).
  - rewrite H1; done.
Qed.



(** What [read] returns for a descriptor that states no start and no
    size: a table with a partition and no occupied sector. *)
Example read_descriptor_without_extent :
  read ["label: gpt"; "sector-size: 512"; ""; "/dev/loop0p1 : type=linux"]
  = Some (mkPartitionTable ["/dev/loop0p1 : type=linux"] (Some 0) 512 None 4096).
Proof. vm_compute. reflexivity. Qed.


(** The three cases on concrete tables: after a partition that ends at
    sector 524328, with a first LBA of 2048, and with neither. *)
Example first_usable_offset_after_partition :
  read ["label: gpt"; "first-lba: 40"; "sector-size: 512"; "";
        "/dev/loop0p1 : start=          40, size=      524289, type=C12A7328-F81F-11D2-BA4B-00A0C93EC93B"]
  ≫= first_usable_offset = Some 268460032.
Proof. vm_compute. done. Qed.

Example first_usable_offset_first_lba :
  first_usable_offset (empty (Some 2049)) = Some (2049 * 512).
Proof. done. Qed.

Example first_usable_offset_default :
  first_usable_offset (empty None) = Some 20480.
Proof. done. Qed.

(** Without the consistency the first case is decided by the recorded
    sector, not by the descriptors: a table with a descriptor but no
    recorded end falls through to the other cases. *)
Example first_usable_offset_no_recorded_end :
  first_usable_offset (mkPartitionTable ["/dev/loop0p1 : type=linux"] (Some 0) 512 None 4096)
  = Some 20480.
Proof. done. Qed.

(** ** Inserting a partition *)

Lemma new_descriptor_uuid_eq n name type_uuid read_only u :
  new_descriptor n name type_uuid read_only (Some u)
  = ("uuid=" +:+ UUID_str u) +:+ ", " +:+
    new_descriptor n name type_uuid read_only None.
Proof. reflexivity. Qed.

Section insert_partition.
Context (args : CommandLineArguments) (slots : Slots) (dump : list string)
  (raw loopdev : string) (partno : Z) (blob : string) (st_size : Z)
  (name : string) (type_uuid : UUID) (read_only : bool) (uuid_opt : option UUID).

(** What a call that returns has computed on the way. *)
Lemma insert_partition_inv r :
  insert_partition args slots dump raw loopdev partno blob st_size name
    type_uuid read_only uuid_opt = Some r →
  ∃ old blob_size off foot,
    old_table_of args slots dump = Some old
    ∧ roundup st_size 512 = Some blob_size
    ∧ first_usable_offset old = Some off
    ∧ footer_size old = Some foot
    ∧ roundup (off + blob_size + luks_extra args + foot) 4096 = Some (ins_size r)
    ∧ 0 ≤ ins_size r
    ∧ ins_returned r = blob_size
    ∧ ins_slots r = set_ran_sfdisk true slots
    ∧ (∃ first_lba,
         first_lba = match gpt_first_lba args with
                     | Some l => Some l
                     | None =>
                         match partitions old with
                         | _ :: _ => None
                         | [] => Some (off / sector_size old)
                         end
                     end
         ∧ ins_script r =
             insert_script old first_lba
               (new_descriptor ((blob_size + luks_extra args) / 512) name
                  type_uuid read_only uuid_opt))
    ∧ (∃ rest,
         ins_events r =
           Truncate raw (ins_size r)
           :: Run ["losetup"; "--set-capacity"; loopdev] ""
           :: Run ["sfdisk"; "--color=never"; "--no-reread"; "--no-tell-kernel"; loopdev]
                  (join nl (ins_script r))
           :: rest).
Proof.
  unfold insert_partition. intros H.
  destruct (old_table_of args slots dump) as [old|] eqn:Eo; [|done].
  cbn [mbind option_bind] in H.
  destruct (roundup st_size 512) as [bs|] eqn:Eb; [|done].
  cbn [mbind option_bind] in H.
  destruct (first_usable_offset old) as [off|] eqn:Eoff; [|done].
  cbn [mbind option_bind] in H.
  destruct (footer_size old) as [foot|] eqn:Ef; [|done].
  cbn [mbind option_bind] in H.
  destruct (roundup (off + bs + luks_extra args + foot) 4096) as [ns|] eqn:En;
    [|done].
  cbn [mbind option_bind] in H.
  repeat case_guard; cbn [mbind option_bind mret option_ret] in H; try done.
  injection H as <-. cbn [ins_size ins_returned ins_slots ins_script ins_events].
  exists old, bs, off, foot. repeat split; try done; try lia; eauto.
Qed.

(** The last line of the table is the new descriptor. *)
Lemma insert_partition_last_descriptor r :
  insert_partition args slots dump raw loopdev partno blob st_size name
    type_uuid read_only uuid_opt = Some r →
  last (ins_script r) =
    Some (new_descriptor ((ins_returned r + luks_extra args) / 512) name
            type_uuid read_only uuid_opt).
Proof.
  intros H. apply insert_partition_inv in H
    as (old & bs & off & foot & _ & _ & _ & _ & _ & _ & -> & _ & (fl & Hfl & Hs) & _).
  rewrite Hs. unfold insert_script. by rewrite !app_assoc, last_snoc.
Qed.

(** The text of the new descriptor: its [size=] field is the sector
    count. *)
Lemma new_descriptor_text n :
  new_descriptor n name type_uuid read_only uuid_opt
  = match uuid_opt with
    | Some u => "uuid=" +:+ UUID_str u +:+ ", "
    | None => ""
    end +:+
    "size=" +:+ pretty n +:+ ", type=" +:+ UUID_str type_uuid +:+
    ", attrs=" +:+ (if read_only then "GUID:60" else "") +:+
    ", name=" +:+ dquote +:+ name +:+ dquote.
Proof.
  assert (∀ a b c : string, (a +:+ b) +:+ c = a +:+ b +:+ c) as Hassoc.
  { intros a b c. induction a as [|x a IH]; [done|].
    change (String x ((a +:+ b) +:+ c) = String x (a +:+ b +:+ c)). by f_equal. }
  destruct uuid_opt as [u|]; [|reflexivity].
  rewrite new_descriptor_uuid_eq, !Hassoc. reflexivity.
Qed.

(** The sector count times 512 is the rounded blob with the
    reservation, and the last line of the table carries it as [size=]. *)
Lemma insert_partition_size_field r :
  insert_partition args slots dump raw loopdev partno blob st_size name
    type_uuid read_only uuid_opt = Some r →
  ∃ n_sectors,
    n_sectors * 512 = ins_returned r + luks_extra args
    ∧ last (ins_script r) =
        Some (match uuid_opt with
              | Some u => "uuid=" +:+ UUID_str u +:+ ", "
              | None => ""
              end +:+
              "size=" +:+ pretty n_sectors +:+ ", type=" +:+ UUID_str type_uuid +:+
              ", attrs=" +:+ (if read_only then "GUID:60" else "") +:+
              ", name=" +:+ dquote +:+ name +:+ dquote).
Proof.
  intros H. pose proof (insert_partition_last_descriptor _ H) as Hlast.
  apply insert_partition_inv in H
    as (old & bs & off & foot & _ & Hb & _ & _ & _ & _ & Hret & _).
  exists ((ins_returned r + luks_extra args) / 512).
  split; [|by rewrite Hlast, new_descriptor_text].
  rewrite Hret. pose proof (roundup_multiple _ _ _ Hb) as [k ->].
  unfold luks_extra. case_decide.
  - replace (k * 512 + 16 * 1024 * 1024) with ((k + 32768) * 512) by lia.
    by rewrite Z.div_mul.
  - rewrite Z.add_0_r. by rewrite Z.div_mul.
Qed.

(** C10: what is returned is the size of the blob rounded up to 512
    bytes; the 16 MiB of [encrypt == "all"] are not in it, while they are
    in the sector count that the new descriptor, the last line of the
    table, carries in its [size=] field, and in the size the image is
    grown to. *)
Theorem insert_partition_returns_blob_size r :
  insert_partition args slots dump raw loopdev partno blob st_size name
    type_uuid read_only uuid_opt = Some r →
  roundup st_size 512 = Some (ins_returned r)
  ∧ luks_extra args = (if decide (encrypt args = Some "all") then 16777216 else 0)
  ∧ (∃ n_sectors,
       n_sectors * 512 = ins_returned r + luks_extra args
       ∧ last (ins_script r) =
           Some (match uuid_opt with
                 | Some u => "uuid=" +:+ UUID_str u +:+ ", "
                 | None => ""
                 end +:+
                 "size=" +:+ pretty n_sectors +:+ ", type=" +:+ UUID_str type_uuid +:+
                 ", attrs=" +:+ (if read_only then "GUID:60" else "") +:+
                 ", name=" +:+ dquote +:+ name +:+ dquote))
  ∧ ∃ old off foot,
      old_table_of args slots dump = Some old
      ∧ first_usable_offset old = Some off
      ∧ footer_size old = Some foot
      ∧ roundup (off + ins_returned r + luks_extra args + foot) 4096
        = Some (ins_size r)
      ∧ Truncate raw (ins_size r) ∈ ins_events r.
Proof.
  intros H. pose proof (insert_partition_size_field _ H) as Hsize.
  apply insert_partition_inv in H
    as (old & bs & off & foot & Ho & Hb & Hoff & Hf & Hn & _ & Hret & _ & _ & [rest He]).
  split; [by rewrite Hret|]. split; [done|]. split; [exact Hsize|].
  exists old, off, foot. rewrite Hret. repeat split; try done. rewrite He. left.
Qed.

(** C2, as the code has it: the size of the device after a call is the
    first usable offset and the footer of the table the call started
    from, plus the blob rounded up to 512 bytes, plus the reservation of
    [encrypt == "all"], all rounded up to 4096; the backing file is
    truncated to it. *)
Theorem insert_partition_geometry r :
  insert_partition args slots dump raw loopdev partno blob st_size name
    type_uuid read_only uuid_opt = Some r →
  ∃ old off foot blob_size,
    old_table_of args slots dump = Some old
    ∧ first_usable_offset old = Some off
    ∧ footer_size old = Some foot
    ∧ roundup st_size 512 = Some blob_size
    ∧ roundup (off + blob_size + luks_extra args + foot) 4096 = Some (ins_size r)
    ∧ Truncate raw (ins_size r) ∈ ins_events r
    ∧ (4096 | ins_size r)
    ∧ off + blob_size + luks_extra args + foot ≤ ins_size r.
Proof.
  intros H. apply insert_partition_inv in H
    as (old & bs & off & foot & Ho & Hb & Hoff & Hf & Hn & _ & _ & _ & _ & [rest He]).
  exists old, off, foot, bs. repeat split; try done.
  - rewrite He. left.
  - by apply roundup_multiple in Hn.
  - apply roundup_ge in Hn; lia.
Qed.

(** C4: the table written to the partitioner is a header of
    [label:], [grain:] and possibly [first-lba:], then every descriptor
    of the table the call started from, unchanged and in order, then the
    one new descriptor; so each earlier partition keeps the start (and
    the size) its descriptor states. *)
Theorem insert_partition_append_only r :
  insert_partition args slots dump raw loopdev partno blob st_size name
    type_uuid read_only uuid_opt = Some r →
  ∃ old header descriptor,
    old_table_of args slots dump = Some old
    ∧ ins_script r = header ++ partitions old ++ [descriptor]
    ∧ Forall (λ line, startswith "label:" line || startswith "grain:" line
                      || startswith "first-lba:" line = true) header
    ∧ (∀ i line, partitions old !! i = Some line →
         ins_script r !! (length header + i)%nat = Some line)
    ∧ descriptor_fields <$> take (length (partitions old)) (drop (length header) (ins_script r))
      = descriptor_fields <$> partitions old
    ∧ Run ["sfdisk"; "--color=never"; "--no-reread"; "--no-tell-kernel"; loopdev]
          (join nl (ins_script r)) ∈ ins_events r.
Proof.
  intros H. apply insert_partition_inv in H
    as (old & bs & off & foot & Ho & _ & _ & _ & _ & _ & _ & _ & (fl & Hfl & Hs) & [rest He]).
  exists old,
    (["label: gpt"; "grain: " +:+ pretty (grain old)] ++
     match fl with Some l => ["first-lba: " +:+ pretty l] | None => [] end),
    (new_descriptor ((bs + luks_extra args) / 512) name type_uuid read_only uuid_opt).
  split; [done|]. split; [rewrite Hs; unfold insert_script; by rewrite <- !app_assoc|].
  split; [destruct fl; repeat constructor|].
  assert (ins_script r =
    (["label: gpt"; "grain: " +:+ pretty (grain old)] ++
     match fl with Some l => ["first-lba: " +:+ pretty l] | None => [] end)
    ++ partitions old ++ [new_descriptor ((bs + luks_extra args) / 512) name type_uuid read_only uuid_opt]) as Hs'.
  { rewrite Hs. unfold insert_script. by rewrite <- !app_assoc. }
  split; [|split].
  - intros i line Hi. rewrite Hs'.
    rewrite lookup_app_r by lia. replace (_ + i - _)%nat with i by lia.
    by rewrite lookup_app_l by (by eapply lookup_lt_Some).
  - rewrite Hs', drop_app_length, take_app_length. done.
  - rewrite He. right. right. left.
Qed.

End insert_partition.

(** An insertion on a fresh image returns whenever the blob has a size
    that leaves the image within [off_t] and, for an encrypted root, a
    passphrase is set: nothing is read, and the empty table has 512-byte
    sectors. *)
Lemma insert_partition_fresh_total args slots dump raw loopdev partno blob
    st_size name type_uuid read_only uuid_opt :
  ran_sfdisk slots = false → gpt_first_lba args = None →
  0 ≤ st_size < 2 ^ 62 →
  (root_partno slots = Some partno → encrypt args = Some "all" →
   is_Some (passphrase args)) →
  is_Some (insert_partition args slots dump raw loopdev partno blob st_size
             name type_uuid read_only uuid_opt).
Proof.
  intros Hr Hl Hs Hpass. unfold insert_partition, old_table_of. rewrite Hr, Hl.
  cbn [mbind option_bind].
  rewrite (roundup_Some st_size 512) by done. cbn [mbind option_bind].
  change (first_usable_offset (empty None)) with (Some 20480).
  change (footer_size (empty None)) with (Some 16896).
  cbn [mbind option_bind]. rewrite roundup_Some by done.
  cbn [mbind option_bind].
  assert (0 ≤ luks_extra args ≤ 16777216)
    by (unfold luks_extra; case_decide; lia).
  pose proof (Z.div_pos (st_size + 512 - 1) 512).
  pose proof (Z.mul_div_le (st_size + 512 - 1) 512).
  rewrite option_guard_True.
  - cbn [mbind option_bind]. rewrite option_guard_True; [done|].
    intros He. apply bool_decide_eq_true in He as [? ?]. by apply Hpass.
  - unfold off_t_max. split.
    + apply Z.mul_nonneg_nonneg; [|lia]. apply Z.div_pos; lia.
    + match goal with
      | |- ?a `div` 4096 * 4096 ≤ _ => pose proof (Z.mul_div_le a 4096)
      end. lia.
Qed.

(** Without a passphrase the insertion of the root under
    [encrypt == "all"] raises, whatever the blob. *)
Example insert_partition_needs_passphrase :
  insert_partition
    (mkArgs fmt_gpt_ext4 None (Some "all") None true ["uefi"] (Some 268435456) None
       None None None None None None false false false false false None None
       None false 0 None None None false false "image.raw")
    (mkSlots false (Some 1) None None None None None None None (Some 2) None None)
    [] "image.raw" "/dev/loop0" 2 "blob" 4096 "Root Partition" GPT_ROOT_X86_64
    false None = None.
Proof. vm_compute. reflexivity. Qed.

Lemma insert_partition_returns_blob_size_witness :
  ∃ r, insert_partition (example_args fmt_gpt_ext4 (Some "all") true false None)
         slots_fresh [] "image.raw" "/dev/loop0" 1 "blob" 1000 "Root Partition"
         GPT_ROOT_X86_64 false None = Some r
       ∧ ins_returned r = 1024
       ∧ roundup 1000 512 = Some (ins_returned r)
       ∧ ins_size r = 16818176
       ∧ last (ins_script r)
         = Some ("size=32770, type=4f68bce3-e8cd-4db1-96e7-fbcaf984b709, attrs=, name="
                 +:+ dquote +:+ "Root Partition" +:+ dquote).
Proof.
  eexists. split; [vm_compute; reflexivity|].
  split; [reflexivity|].
  split; [|split; [reflexivity|vm_compute; reflexivity]].
  refine (proj1 (insert_partition_returns_blob_size
    (example_args fmt_gpt_ext4 (Some "all") true false None)
    slots_fresh [] "image.raw" "/dev/loop0" 1 "blob" 1000 "Root Partition"
    GPT_ROOT_X86_64 false None _ _)).
  vm_compute; reflexivity.
Defined.

Lemma insert_partition_geometry_witness :
  ∃ r,
    insert_partition (example_args fmt_gpt_ext4 None true false None)
      (set_ran_sfdisk true slots_fresh) dump_one_sector "image.raw" "/dev/loop0" 2
      "blob" 512 "Root Partition" GPT_ROOT_X86_64 false None = Some r
    ∧ ins_size r = 45056
    ∧ (4096 | ins_size r).
Proof.
  eexists. split; [vm_compute; reflexivity|]. split; [reflexivity|].
  destruct (insert_partition_geometry
    (example_args fmt_gpt_ext4 None true false None)
    (set_ran_sfdisk true slots_fresh) dump_one_sector "image.raw" "/dev/loop0" 2
    "blob" 512 "Root Partition" GPT_ROOT_X86_64 false None _
    ltac:(vm_compute; reflexivity))
    as (old & off & foot & bs & _ & _ & _ & _ & _ & _ & Hdiv & _).
  exact Hdiv.
Defined.

Lemma insert_partition_append_only_witness :
  ∃ r,
    insert_partition (example_args fmt_gpt_ext4 None true false None)
      (set_ran_sfdisk true slots_fresh) dump_one_sector "image.raw" "/dev/loop0" 2
      "blob" 512 "Root Partition" GPT_ROOT_X86_64 false None = Some r
    ∧ ins_script r !! 2%nat =
        Some "/dev/loop0p1 : start=          40, size=           1, type=4F68BCE3-E8CD-4DB1-96E7-FBCAF984B709"
    ∧ Run ["sfdisk"; "--color=never"; "--no-reread"; "--no-tell-kernel"; "/dev/loop0"]
          (join nl (ins_script r)) ∈ ins_events r.
Proof.
  eexists. split; [vm_compute; reflexivity|]. split; [reflexivity|].
  destruct (insert_partition_append_only
    (example_args fmt_gpt_ext4 None true false None)
    (set_ran_sfdisk true slots_fresh) dump_one_sector "image.raw" "/dev/loop0" 2
    "blob" 512 "Root Partition" GPT_ROOT_X86_64 false None _
    ltac:(vm_compute; reflexivity))
    as (old & header & descriptor & _ & _ & _ & _ & _ & Hrun).
  exact Hrun.
Defined.

(** C2, as stated: with [encrypt == "all"] the first insertion of a
    512-byte blob leaves a device of 16818176 bytes, where the stated sum
    gives 40960. *)
Lemma geometry_as_stated_fails :
  ¬ (∀ partitioner args slots blobs,
       ran_sfdisk slots = false → geometry_as_stated partitioner args slots blobs).
Proof.
  intros H.
  destruct (H (λ _, []) (example_args fmt_gpt_ext4 (Some "all") true false None)
              slots_fresh [512] eq_refl [16818176] 0%nat 16818176)
    as (off & foot & total & Hoff & Hf & Ht & Hr).
  - vm_compute. reflexivity.
  - reflexivity.
  - vm_compute in Hoff, Hf, Ht. injection Hoff as <-. injection Hf as <-.
    injection Ht as <-. vm_compute in Hr. discriminate.
Qed.

(** Without encryption the stated sum still misses the alignment of each
    partition to the grain: after two blobs of 512 bytes, the second placed
    behind a first that ends at sector 41, the device has 45056 bytes and
    not the 40960 of the sum. *)
Example geometry_sum_misses_alignment :
  insert_sequence (λ _, dump_one_sector)
    (example_args fmt_gpt_ext4 None true false None) slots_fresh [] 1 [512; 512]
  = Some [40960; 45056]
  ∧ (off ← first_usable_offset (empty None); foot ← footer_size (empty None);
     total ← sector_rounded_sum 512 [512; 512]; roundup (off + total + foot) 4096)
    = Some 40960.
Proof. split; vm_compute; reflexivity. Qed.

(** ** Partition numbers *)

Lemma determine_partition_table_numbered machine args s s' table run :
  determine_partition_table machine args s = Some (s', table, run) →
  numbered args s' ∧ ran_sfdisk s' = ran_sfdisk s ∧ root_size s' = root_size s.
Proof.
  unfold determine_partition_table. intros H.
  destruct (number_partitions machine args) as [[n nb]|]; [|done].
  cbn [mbind option_bind] in H. injection H as <- _ _.
  split; [by exists (nb_pn nb)|done].
Qed.

Lemma numbered_set_ran_sfdisk args b s :
  numbered args s → numbered args (set_ran_sfdisk b s).
Proof. intros (pn & H1 & H2). by exists pn. Qed.

Lemma numbered_set_root_size args v s :
  numbered args s → numbered args (set_root_size v s).
Proof. intros (pn & H1 & H2). by exists pn. Qed.

Lemma exec_sfdisk_numbered env args f s s' ev :
  exec_sfdisk env args f s = Some (s', ev) → numbered args s'.
Proof.
  unfold exec_sfdisk. intros H.
  destruct (determine_partition_table (machine env) args s) as [[[s1 t] r]|] eqn:E;
    [|done].
  cbn [mbind option_bind] in H. injection H as <- _.
  apply numbered_set_ran_sfdisk.
  by apply determine_partition_table_numbered in E as [? _].
Qed.

(** ** Setting up the image of a pass *)

Lemma reuse_cache_image_inv env args dev fc w raw cached ev w' :
  reuse_cache_image env args dev fc w = Some (raw, cached, ev, w') →
  cached = incremental args && is_disk_rw (output_format args)
           && cache_exists args dev (fs w)
  ∧ present raw = cached && negb fc
  ∧ (cached && negb fc = true → numbered args (slots w'))
  ∧ (cached && negb fc = false → w' = w).
Proof.
  unfold reuse_cache_image, cache_exists, copy_image_temporary.
  destruct (incremental args); simpl; [|by intros [= <- <- <- <-]].
  destruct (is_disk_rw (output_format args)); simpl; [|by intros [= <- <- <- <-]].
  destruct fc; simpl.
  - destruct (cache_name args dev) as [fname|]; [|by intros [= <- <- <- <-]].
    case_bool_decide; by intros [= <- <- <- <-].
  - destruct (cache_name args dev) as [fname|]; [|by intros [= <- <- <- <-]].
    destruct (fs w !! fname) as [[data| | |]|] eqn:E; simpl; try done.
    + destruct (determine_partition_table (machine env) args (slots w))
        as [[[s1 t] r]|] eqn:Ed; simpl; [|done].
      intros [= <- <- <- <-]. simpl.
      repeat split; try done.
      intros _. apply numbered_set_ran_sfdisk.
      by apply determine_partition_table_numbered in Ed as [? _].
    + by intros [= <- <- <- <-].
Qed.

Lemma build_image_setup_inv env args dev fc w setup ev w' :
  build_image_setup env args dev fc w = Some (setup, ev, w') →
  let consult := incremental args && is_disk_rw (output_format args) in
  match setup with
  | None =>
      bool_decide (build_script args = None) && dev
      || fc && consult && cache_exists args dev (fs w) = true
  | Some (raw, cached) =>
      bool_decide (build_script args = None) && dev = false
      ∧ fc && consult && cache_exists args dev (fs w) = false
      ∧ cached = consult && negb fc && cache_exists args dev (fs w)
      ∧ present raw = cached || is_disk (output_format args)
      ∧ (is_disk (output_format args) = true → numbered args (slots w'))
  end.
Proof.
  unfold build_image_setup. intros H. cbv zeta.
  destruct (bool_decide (build_script args = None) && dev) eqn:Eb.
  { by injection H as <- _ _. }
  destruct (reuse_cache_image env args dev fc w) as [[[[raw cached] ev1] w1]|] eqn:Er;
    [|done].
  cbn [mbind option_bind] in H.
  apply reuse_cache_image_inv in Er as (Hc & Hraw & Hnum & Hsame).
  destruct fc; simpl in *.
  - rewrite andb_false_r in Hsame, Hraw. specialize (Hsame eq_refl). subst w1.
    destruct cached.
    + injection H as <- _ _. by rewrite <- Hc.
    + unfold create_image in H.
      destruct (is_disk (output_format args)) eqn:Ed; simpl in H.
      * destruct (image_size args (slots w)) as [sz|]; [|done].
        cbn [mbind option_bind] in H. case_guard; [|done].
        cbn [mbind option_bind] in H.
        destruct (exec_sfdisk env args (tmp_raw env) (slots w)) as [[s2 e2]|] eqn:Ee;
          [|done].
        cbn [mbind option_bind] in H. injection H as <- _ <-.
        rewrite <- Hc. rewrite andb_false_r. repeat split; try done.
        intros _. by apply exec_sfdisk_numbered in Ee.
      * injection H as <- _ <-. rewrite <- Hc. rewrite andb_false_r.
        by repeat split.
  - rewrite andb_true_r in Hsame, Hraw, Hnum. rewrite andb_true_r.
    destruct cached.
    + destruct raw as [f|]; [|done]. cbn [mbind option_bind] in H.
      unfold refresh_partition_table in H.
      destruct (is_disk (output_format args)) eqn:Ed; simpl in H.
      * destruct (exec_sfdisk env args f (slots w1)) as [[s2 e2]|] eqn:Ee; [|done].
        cbn [mbind option_bind] in H. injection H as <- _ <-.
        repeat split; try done. intros _. by apply exec_sfdisk_numbered in Ee.
      * injection H as <- _ <-. by repeat split.
    + specialize (Hsame eq_refl). subst w1.
      unfold create_image in H.
      destruct (is_disk (output_format args)) eqn:Ed; simpl in H.
      * destruct (image_size args (slots w)) as [sz|]; [|done].
        cbn [mbind option_bind] in H. case_guard; [|done].
        cbn [mbind option_bind] in H.
        destruct (exec_sfdisk env args (tmp_raw env) (slots w)) as [[s2 e2]|] eqn:Ee;
          [|done].
        cbn [mbind option_bind] in H. injection H as <- _ <-.
        repeat split; try done. intros _. by apply exec_sfdisk_numbered in Ee.
      * injection H as <- _ <-. by repeat split.
Qed.

(** ** Generated root, verity and the root UUID *)

(** The two partition numbers survive the assignments of an insertion. *)
Lemma partnos_set_ran_sfdisk b s :
  root_partno (set_ran_sfdisk b s) = root_partno s
  ∧ verity_partno (set_ran_sfdisk b s) = verity_partno s.
Proof. done. Qed.

Lemma insert_partition_partnos args slots dump raw loopdev partno blob st_size
    name type_uuid read_only uuid_opt r :
  insert_partition args slots dump raw loopdev partno blob st_size name
    type_uuid read_only uuid_opt = Some r →
  root_partno (ins_slots r) = root_partno slots
  ∧ verity_partno (ins_slots r) = verity_partno slots.
Proof.
  intros H. apply insert_partition_inv in H
    as (? & ? & ? & ? & _ & _ & _ & _ & _ & _ & _ & -> & _). done.
Qed.

Lemma insert_generated_root_inv env args slots done raw loopdev image fc s' ev :
  insert_generated_root env args slots done raw loopdev image fc = Some (s', ev) →
  root_partno s' = root_partno slots ∧ verity_partno s' = verity_partno slots
  ∧ if is_generated_root args && is_disk (output_format args) && negb fc then
      ∃ rawf loop img pn pair r,
        raw = Some rawf ∧ loopdev = Some loop ∧ image = Some img
        ∧ root_partno slots = Some pn
        ∧ gpt_root_native (machine env) (architecture args) (usr_only args) = Some pair
        ∧ insert_partition args slots (sfdisk_dump env done) rawf loop pn img
            (st_size env img) (root_partition_name args false) (pair_root pair)
            (read_only args) None = Some r
        ∧ ev = ins_events r
    else s' = slots ∧ ev = [].
Proof.
  unfold insert_generated_root.
  destruct (is_generated_root args); simpl; [|by intros [= <- <-]].
  destruct (is_disk (output_format args)); simpl; [|by intros [= <- <-]].
  destruct fc; simpl; [by intros [= <- <-]|].
  destruct raw as [rawf|]; [|done]. destruct loopdev as [loop|]; [|done].
  destruct image as [img|]; [|done]. simpl.
  destruct (root_partno slots) as [pn|] eqn:Epn; [|done]. simpl.
  destruct (gpt_root_native _ _ _) as [pair|]; [|done]. simpl.
  destruct (insert_partition _ _ _ _ _ _ _ _ _ _ _ _) as [r|] eqn:Ei; [|done].
  simpl. intros [= <- <-].
  pose proof (insert_partition_partnos _ _ _ _ _ _ _ _ _ _ _ _ _ Ei) as [H1 H2].
  split; [by rewrite <- Epn, <- H1|]. split; [done|].
  exists rawf, loop, img, pn, pair, r. by repeat split.
Qed.

Lemma make_verity_inv env args dev d fc made ev :
  make_verity env args dev d fc = Some (made, ev) →
  present made = negb d && verity args && negb fc
  ∧ (made = None → ev = [])
  ∧ (∀ f h, made = Some (f, h) →
       f = tmp_verity env ∧ dev = true
       ∧ find_root_hash (veritysetup_stdout env) = Some h
       ∧ ev = [Run ["veritysetup"; "format"; "<dev>"; tmp_verity env] ""]).
Proof.
  unfold make_verity.
  destruct d; simpl; [by intros [= <- <-]|].
  destruct (verity args); simpl; [|by intros [= <- <-]].
  destruct fc; simpl; [by intros [= <- <-]|].
  case_guard; [|done]. simpl.
  destruct (find_root_hash (veritysetup_stdout env)) as [h|]; [|done]. simpl.
  intros [= <- <-]. split; [done|]. split; [done|].
  by intros ? ? [= <- <-].
Qed.

Lemma patch_root_uuid_inv args s loopdev h ev :
  patch_root_uuid args s loopdev (Some h) false = Some ev →
  ∃ loop u, loopdev = Some loop
            ∧ UUID_of_hex (slice_to 32 h) = Some u
            ∧ ev = [Run ["sfdisk"; "--part-uuid"; loop; str_opt (root_partno s);
                         UUID_str u] ""].
Proof.
  unfold patch_root_uuid. destruct loopdev as [loop|]; simpl; [|done].
  destruct (UUID_of_hex (slice_to 32 h)) as [u|] eqn:Eu; [|done]. simpl.
  intros [= <-]. by exists loop, u.
Qed.

Lemma insert_verity_inv env args s done raw loopdev v rh s' ev :
  insert_verity env args s done raw loopdev (Some v) rh false = Some (s', ev) →
  ∃ rawf loop h pn u pair r,
    raw = Some rawf ∧ loopdev = Some loop ∧ rh = Some h
    ∧ verity_partno s = Some pn
    ∧ UUID_of_hex (slice_last 32 h) = Some u
    ∧ gpt_root_native (machine env) (architecture args) (usr_only args) = Some pair
    ∧ insert_partition args s (sfdisk_dump env done) rawf loop pn v
        (st_size env v) (root_partition_name args true) (pair_verity pair) true
        (Some u) = Some r
    ∧ s' = ins_slots r ∧ ev = ins_events r.
Proof.
  unfold insert_verity.
  destruct loopdev as [loop|]; simpl; [|done].
  destruct raw as [rawf|]; simpl; [|done].
  destruct rh as [h|]; simpl; [|done].
  destruct (verity_partno s) as [pn|] eqn:Epn; [|done]. simpl.
  destruct (UUID_of_hex (slice_last 32 h)) as [u|] eqn:Eu; [|done]. simpl.
  destruct (gpt_root_native _ _ _) as [pair|] eqn:Eg; [|done]. simpl.
  destruct (insert_partition _ _ _ _ _ _ _ _ _ _ _ _) as [r|] eqn:Ei; [|done].
  simpl. intros [= <- <-].
  exists rawf, loop, h, pn, u, pair, r. by repeat split.
Qed.

(** ** The structure of a pass *)

Lemma build_image_partitions_inv env args s done raw loopdev devb d fc p :
  build_image_partitions env args s done raw loopdev devb d fc = Some p →
  ∃ ev_gen s1 ev_root made ev_make ev_patch ev_verity,
    make_generated_root env args fc = (p_generated_root p, ev_gen)
    ∧ insert_generated_root env args s (done ++ ev_gen) raw loopdev
        (p_generated_root p) fc = Some (s1, ev_root)
    ∧ (if split_artifacts args then
         match p_generated_root p with
         | Some g => Some (Some g)
         | None => extract_partition env args devb d fc
         end
       else Some None) = Some (p_split_root p)
    ∧ make_verity env args devb d fc = Some (made, ev_make)
    ∧ p_verity p = fst <$> made ∧ p_root_hash p = snd <$> made
    ∧ patch_root_uuid args s1 loopdev (p_root_hash p) fc = Some ev_patch
    ∧ insert_verity env args s1 (done ++ ev_gen ++ ev_root ++ ev_make ++ ev_patch)
        raw loopdev (p_verity p) (p_root_hash p) fc = Some (p_slots p, ev_verity)
    ∧ p_events p = ev_gen ++ ev_root ++ ev_make ++ ev_patch ++ ev_verity.
Proof.
  unfold build_image_partitions. intros H.
  destruct (make_generated_root env args fc) as [g ev_gen] eqn:Eg.
  destruct (insert_generated_root env args s (done ++ ev_gen) raw loopdev g fc)
    as [[s1 ev_root]|] eqn:Er; [|done].
  cbn [mbind option_bind] in H.
  match type of H with
  | (?x ≫= _) = _ => destruct x as [sr|] eqn:Es; [|done]
  end.
  cbn [mbind option_bind] in H.
  destruct (make_verity env args devb d fc) as [[made ev_make]|] eqn:Em; [|done].
  cbn [mbind option_bind] in H.
  destruct (patch_root_uuid args s1 loopdev (snd <$> made) fc) as [ev_patch|] eqn:Ep;
    [|done].
  cbn [mbind option_bind] in H.
  destruct (insert_verity env args s1 _ raw loopdev (fst <$> made) (snd <$> made) fc)
    as [[s2 ev_verity]|] eqn:Ev; [|done].
  cbn [mbind option_bind] in H. injection H as <-.
  cbn [p_generated_root p_split_root p_verity p_root_hash p_slots p_events].
  exists ev_gen, s1, ev_root, made, ev_make, ev_patch, ev_verity.
  by repeat split.
Qed.

Lemma build_image_inv env args root dev fc w out ev w' :
  build_image env args root dev fc w = Some (out, ev, w') →
  ∃ setup ev0 w0,
    build_image_setup env args dev fc w = Some (setup, ev0, w0)
    ∧ match setup with
      | None => out = BuildOutput_empty ∧ ev = ev0 ∧ w' = w0
      | Some (raw, cached) =>
          ∃ p ev1 evpost fs2 kernel,
            build_image_partitions env args (slots w0) ev1 raw
              (match raw with Some _ => Some (env_loopdev env) | None => None end)
              (is_disk (output_format args)
               && bool_decide (is_Some (root_partno (slots w0)))) dev fc = Some p
            ∧ ev = ev1 ++ p_events p ++ evpost
            ∧ (if split_artifacts args
               then extract_unified_kernel env args dev fc
               else Some None) = Some kernel
            ∧ out = mkBuildOutput (or_else raw (p_generated_root p))
                      (make_archive env args dev fc) (p_root_hash p)
                      (setup_ssh env args dev fc) (p_split_root p)
                      (if split_artifacts args then p_verity p else None) kernel
            ∧ w' = mkWorld fs2 (p_slots p)
            ∧ ∃ fs1 cached_tree,
                ensure_dir root (fs w0) = Some fs1
                ∧ reuse_cache_tree args root dev fc cached fs1 = Some (cached_tree, fs2)
      end.
Proof.
  unfold build_image. intros H.
  destruct (build_image_setup env args dev fc w) as [[[setup ev0] w0]|] eqn:Es;
    [|done].
  cbn [mbind option_bind] in H. exists setup, ev0, w0. split; [done|].
  destruct setup as [[raw cached]|]; [|by injection H as <- <- <-].
  destruct (ensure_dir root (fs w0)) as [fs1|] eqn:Ee; [|done].
  cbn [mbind option_bind] in H.
  destruct (reuse_cache_tree args root dev fc cached fs1) as [[ct fs2]|] eqn:Et;
    [|done].
  cbn [mbind option_bind] in H.
  destruct (build_image_partitions _ _ _ _ _ _ _ _ _) as [p|] eqn:Ep; [|done].
  cbn [mbind option_bind] in H.
  match type of H with
  | (?x ≫= _) = _ => destruct x as [kernel|] eqn:Ek; [|done]
  end.
  cbn [mbind option_bind] in H. injection H as <- <- <-.
  eexists p, _, _, fs2, kernel. split; [exact Ep|].
  split; [by rewrite <- !app_assoc|]. split; [done|]. split; [done|].
  split; [done|]. by exists fs1, ct.
Qed.

Lemma new_descriptor_uuid n name type_uuid read_only u :
  new_descriptor n name type_uuid read_only (Some u)
  = ("uuid=" +:+ UUID_str u) +:+ ", " +:+
    new_descriptor n name type_uuid read_only None.
Proof. reflexivity. Qed.

(** C5: when a pass returns a bundle with a root hash [h], it has run
    [sfdisk --part-uuid] on the root partition with the UUID of the first
    32 digits of [h], and it has written a table whose last descriptor,
    the one of the verity partition, begins with [uuid=] and the UUID of
    the last 32 digits of [h]. *)
Theorem root_verity_uuid_pairing env args root dev fc w out ev w' h :
  build_image env args root dev fc w = Some (out, ev, w') →
  root_hash out = Some h →
  ∃ u_head u_tail script n pair,
    UUID_of_hex (slice_to 32 h) = Some u_head
    ∧ UUID_of_hex (slice_last 32 h) = Some u_tail
    ∧ Run ["sfdisk"; "--part-uuid"; env_loopdev env;
           str_opt (root_partno (slots w')); UUID_str u_head] "" ∈ ev
    ∧ Run ["sfdisk"; "--color=never"; "--no-reread"; "--no-tell-kernel";
           env_loopdev env] (join nl script) ∈ ev
    ∧ gpt_root_native (machine env) (architecture args) (usr_only args) = Some pair
    ∧ last script =
        Some (("uuid=" +:+ UUID_str u_tail) +:+ ", " +:+
              new_descriptor n (root_partition_name args true) (pair_verity pair)
                true None).
Proof.
  intros H Hh. apply build_image_inv in H as (setup & ev0 & w0 & _ & H).
  destruct setup as [[raw cached]|]; [|by destruct H as (-> & _)].
  destruct H as (p & ev1 & evpost & fs2 & kernel & Hp & -> & _ & -> & -> & _).
  simpl in Hh.
  apply build_image_partitions_inv in Hp
    as (ev_gen & s1 & ev_root & made & ev_make & ev_patch & ev_verity
        & _ & Hroot & _ & Hmake & Hv & Hrh & Hpatch & Hins & Hev).
  rewrite Hh in Hrh. destruct made as [[f h']|]; [|done]. injection Hrh as ->.
  pose proof (make_verity_inv _ _ _ _ _ _ _ Hmake) as (Hpres & _ & _).
  simpl in Hpres. symmetry in Hpres.
  apply andb_true_iff in Hpres as [_ Hfc]. apply negb_true_iff in Hfc. subst fc.
  rewrite Hh in Hpatch, Hins. rewrite Hv in Hins.
  change (fst <$> Some (f, h')) with (Some f) in Hins.
  apply patch_root_uuid_inv in Hpatch as (loop & u_head & Hloop & Hu & ->).
  apply insert_verity_inv in Hins
    as (rawf & loop' & h0 & pn & u_tail & pair & r & -> & Hloop' & [= <-] & Hpn & Hu'
        & Hpair & Hr & Hs & ->).
  simpl in Hloop. injection Hloop as <-.
  pose proof (insert_partition_partnos _ _ _ _ _ _ _ _ _ _ _ _ _ Hr) as [Hr1 _].
  apply insert_generated_root_inv in Hroot as (Hs1 & _ & _).
  pose proof (insert_partition_last_descriptor _ _ _ _ _ _ _ _ _ _ _ _ _ Hr)
    as Hlast.
  apply insert_partition_inv in Hr
    as (? & ? & ? & ? & _ & _ & _ & _ & _ & _ & _ & _ & _ & [rest Hrest]).
  injection Hloop' as <-.
  exists u_head, u_tail, (ins_script r),
    ((ins_returned r + luks_extra args) / 512), pair.
  split; [done|]. split; [done|]. split; [|split; [|split; [done|]]].
  - simpl. rewrite Hs, Hr1, Hev. rewrite !elem_of_app. right. left.
    do 3 right. left. left.
  - rewrite Hev, Hrest. rewrite !elem_of_app. right. left. do 4 right.
    right. right. left.
  - by rewrite Hlast, new_descriptor_uuid.
Qed.

Lemma root_verity_uuid_pairing_witness :
  ∃ out ev w',
    build_image example_env (example_args fmt_gpt_squashfs None true false None)
      "root" false false world_fresh = Some (out, ev, w')
    ∧ root_hash out = Some example_root_hash
    ∧ ∃ u_head u_tail script n pair,
        UUID_of_hex (slice_to 32 example_root_hash) = Some u_head
        ∧ UUID_of_hex (slice_last 32 example_root_hash) = Some u_tail
        ∧ Run ["sfdisk"; "--part-uuid"; env_loopdev example_env;
               str_opt (root_partno (slots w')); UUID_str u_head] "" ∈ ev
        ∧ Run ["sfdisk"; "--color=never"; "--no-reread"; "--no-tell-kernel";
               env_loopdev example_env] (join nl script) ∈ ev
        ∧ gpt_root_native (machine example_env)
            (architecture (example_args fmt_gpt_squashfs None true false None))
            (usr_only (example_args fmt_gpt_squashfs None true false None)) = Some pair
        ∧ last script =
            Some (("uuid=" +:+ UUID_str u_tail) +:+ ", " +:+
                  new_descriptor n
                    (root_partition_name
                       (example_args fmt_gpt_squashfs None true false None) true)
                    (pair_verity pair) true None).
Proof.
  eexists _, _, _. split; [vm_compute; reflexivity|]. split; [reflexivity|].
  eapply (root_verity_uuid_pairing example_env
            (example_args fmt_gpt_squashfs None true false None)
            "root" false false world_fresh).
  - vm_compute. reflexivity.
  - reflexivity.
Defined.

(** The fixture: the two UUIDs of the example hash. *)
Example root_verity_uuid_fixture :
  UUID_str <$> UUID_of_hex (slice_to 32 example_root_hash)
    = Some "01234567-89ab-cdef-0123-456789abcdef"
  ∧ UUID_str <$> UUID_of_hex (slice_last 32 example_root_hash)
    = Some "fedcba98-7654-3210-fedc-ba9876543210".
Proof. split; vm_compute; reflexivity. Qed.

(** C6: in a pass that generates its root, works on a disk image and
    returns a root hash, the events of the insertion of the root come
    before those of the insertion of the verity partition, and the verity
    partition is inserted under the number after the root's, as assigned
    when the table was determined. *)
Theorem root_inserted_before_verity env args root dev fc w out ev w' :
  build_image env args root dev fc w = Some (out, ev, w') →
  is_generated_root args = true →
  is_disk (output_format args) = true →
  is_Some (root_hash out) →
  ∃ pn r_root r_verity before between after,
    ev = before ++ ins_events r_root ++ between ++ ins_events r_verity ++ after
    ∧ root_partno (slots w') = Some pn
    ∧ verity_partno (slots w') = Some (pn + 1)
    ∧ (∃ s d rawf img ty,
         insert_partition args s d rawf (env_loopdev env) pn img (st_size env img)
           (root_partition_name args false) ty (read_only args) None = Some r_root)
    ∧ (∃ s d rawf v ty u,
         insert_partition args s d rawf (env_loopdev env) (pn + 1) v (st_size env v)
           (root_partition_name args true) ty true (Some u) = Some r_verity).
Proof.
  intros H Hgen Hdisk [h Hh].
  apply build_image_inv in H as (setup & ev0 & w0 & Hsetup & H).
  destruct setup as [[raw cached]|]; [|by destruct H as (-> & _)].
  destruct H as (p & ev1 & evpost & fs2 & kernel & Hp & -> & _ & -> & -> & _).
  simpl in Hh.
  apply build_image_setup_inv in Hsetup as (_ & _ & _ & _ & Hnum).
  destruct (Hnum Hdisk) as (pn & Hpn & Hvn).
  apply build_image_partitions_inv in Hp
    as (ev_gen & s1 & ev_root & made & ev_make & ev_patch & ev_verity
        & _ & Hroot & _ & Hmake & Hv & Hrh & _ & Hins & Hev).
  rewrite Hh in Hrh. destruct made as [[f h']|]; [|done]. injection Hrh as ->.
  pose proof (make_verity_inv _ _ _ _ _ _ _ Hmake) as (Hpres & _ & _).
  simpl in Hpres. symmetry in Hpres.
  apply andb_true_iff in Hpres as [Hpres Hfc].
  apply andb_true_iff in Hpres as [_ Hverity].
  apply negb_true_iff in Hfc. subst fc. rewrite Hverity in Hvn.
  rewrite Hh, Hv in Hins.
  change (fst <$> Some (f, h')) with (Some f) in Hins.
  apply insert_generated_root_inv in Hroot as (Hs1 & Hs1' & Hroot).
  rewrite Hgen, Hdisk in Hroot. simpl in Hroot.
  destruct Hroot as (rawf & loop & img & pn' & pair & r_root & -> & Hloop & _ & Hpn'
                     & _ & Hr & ->).
  injection Hloop as <-.
  rewrite Hpn in Hpn'. injection Hpn' as <-.
  apply insert_verity_inv in Hins
    as (rawf' & loop' & h0 & vn & u & pair' & r_verity & _ & Hloop' & _ & Hvn'
        & _ & _ & Hrv & Hs & ->).
  injection Hloop' as <-.
  rewrite Hs1', Hvn in Hvn'. injection Hvn' as <-.
  pose proof (insert_partition_partnos _ _ _ _ _ _ _ _ _ _ _ _ _ Hrv) as [Hq1 Hq2].
  exists pn, r_root, r_verity, (ev1 ++ ev_gen), (ev_make ++ ev_patch), evpost.
  split; [rewrite Hev; by rewrite <- !app_assoc|].
  split; [simpl; by rewrite Hs, Hq1, Hs1|].
  split; [simpl; by rewrite Hs, Hq2, Hs1'|].
  split; [by eexists _, _, _, _, _|by eexists _, _, _, _, _, _].
Qed.

Lemma root_inserted_before_verity_witness :
  ∃ out ev w',
    build_image example_env (example_args fmt_gpt_squashfs None true false None)
      "root" false false world_fresh = Some (out, ev, w')
    ∧ root_partno (slots w') = Some 2
    ∧ verity_partno (slots w') = Some 3
    ∧ ∃ pn r_root r_verity before between after,
        ev = before ++ ins_events r_root ++ between ++ ins_events r_verity ++ after
        ∧ root_partno (slots w') = Some pn
        ∧ verity_partno (slots w') = Some (pn + 1)
        ∧ (∃ s d rawf img ty,
             insert_partition (example_args fmt_gpt_squashfs None true false None)
               s d rawf (env_loopdev example_env) pn img (st_size example_env img)
               (root_partition_name
                  (example_args fmt_gpt_squashfs None true false None) false)
               ty (read_only (example_args fmt_gpt_squashfs None true false None))
               None = Some r_root)
        ∧ (∃ s d rawf v ty u,
             insert_partition (example_args fmt_gpt_squashfs None true false None)
               s d rawf (env_loopdev example_env) (pn + 1) v (st_size example_env v)
               (root_partition_name
                  (example_args fmt_gpt_squashfs None true false None) true)
               ty true (Some u) = Some r_verity).
Proof.
  eexists _, _, _. split; [vm_compute; reflexivity|].
  split; [reflexivity|]. split; [reflexivity|].
  eapply (root_inserted_before_verity example_env
            (example_args fmt_gpt_squashfs None true false None)
            "root" false false world_fresh).
  - vm_compute. reflexivity.
  - reflexivity.
  - reflexivity.
  - eexists. reflexivity.
Defined.

(** ** The fields of the bundle *)

Lemma make_generated_root_present env args fc :
  present (fst (make_generated_root env args fc))
  = is_generated_root args && negb fc
    && (bool_decide (kind (output_format args) = gpt_ext4)
        || bool_decide (kind (output_format args) = gpt_btrfs)
        || is_squashfs (output_format args)).
Proof.
  unfold make_generated_root.
  destruct (is_generated_root args), fc,
    (bool_decide (kind (output_format args) = gpt_ext4)),
    (bool_decide (kind (output_format args) = gpt_btrfs)),
    (is_squashfs (output_format args)); reflexivity.
Qed.

Lemma extract_partition_present env args devb d fc x :
  extract_partition env args devb d fc = Some x →
  present x = negb d && negb fc && split_artifacts args.
Proof.
  unfold extract_partition.
  destruct d, fc, (split_artifacts args); simpl; try by intros [= <-].
  case_guard; simpl; [|done]. by intros [= <-].
Qed.

Lemma extract_unified_kernel_present env args d fc x :
  extract_unified_kernel env args d fc = Some x →
  present x = negb d && negb fc && split_artifacts args && bootable args.
Proof.
  unfold extract_unified_kernel.
  destruct d, fc, (split_artifacts args), (bootable args); simpl;
    try by intros [= <-].
  destruct (efi_kernels env) as [|k [|k' ks]]; [done| |done]. by intros [= <-].
Qed.

(** C7, as the code has it: a returned bundle has a root hash exactly
    when verity is configured and the pass is neither a cache-populate nor
    a development pass; which fields it has follows from the
    configuration, the kind of pass and whether the cache artifact of the
    stage exists. *)
Theorem bundle_presence env args root dev fc w out ev w' :
  build_image env args root dev fc w = Some (out, ev, w') →
  (is_Some (root_hash out) ↔ verity args = true ∧ fc = false ∧ dev = false)
  ∧ presence out = expected_presence args dev fc (cache_exists args dev (fs w)).
Proof.
  intros H. apply build_image_inv in H as (setup & ev0 & w0 & Hsetup & H).
  apply build_image_setup_inv in Hsetup. cbv zeta in Hsetup.
  unfold expected_presence.
  destruct setup as [[raw cached]|].
  - destruct Hsetup as (-> & -> & -> & Hraw & _).
    destruct H as (p & ev1 & evpost & fs2 & kernel & Hp & _ & Hk & -> & _).
    apply build_image_partitions_inv in Hp
      as (ev_gen & s1 & ev_root & made & ev_make & ev_patch & ev_verity
          & Hgen & _ & Hsplit & Hmake & Hv & Hrh & _).
    pose proof (make_verity_inv _ _ _ _ _ _ _ Hmake) as (Hpres & _ & _).
    pose proof (make_generated_root_present env args fc) as Hg.
    rewrite Hgen in Hg. simpl in Hg.
    assert (present (p_root_hash p) = negb dev && verity args && negb fc) as Hpr.
    { rewrite Hrh, <- Hpres. by destruct made. }
    assert (present (p_verity p) = negb dev && verity args && negb fc) as Hpv.
    { rewrite Hv, <- Hpres. by destruct made. }
    split.
    + simpl. destruct (p_root_hash p); simpl in Hpr;
        destruct dev, (verity args), fc; simpl in Hpr; try done;
        split; try done; try by intros [? ?]. all: by intros (? & ? & ?).
    + unfold presence. simpl. f_equal.
      * destruct raw; simpl in *; [by rewrite <- Hraw|].
        rewrite <- Hraw. simpl. by rewrite Hg.
      * unfold make_archive.
        destruct dev, fc, (bool_decide (kind (output_format args) = tar)),
          (bool_decide (kind (output_format args) = cpio)); reflexivity.
      * rewrite Hpr. by destruct dev, fc, (verity args).
      * unfold setup_ssh. by destruct dev, fc, (ssh args).
      * destruct (split_artifacts args) eqn:Esp.
        -- destruct (p_generated_root p) as [g|] eqn:Eg.
           ++ injection Hsplit as <-. simpl in *. by rewrite <- Hg.
           ++ apply extract_partition_present in Hsplit. rewrite Hsplit, Esp.
              simpl in Hg. rewrite <- Hg. by destruct dev, fc.
        -- by injection Hsplit as <-.
      * destruct (split_artifacts args); [|done]. rewrite Hpv.
        by destruct dev, fc, (verity args).
      * destruct (split_artifacts args) eqn:Esp.
        -- apply extract_unified_kernel_present in Hk. rewrite Hk, Esp.
           by destruct dev, fc, (bootable args).
        -- by injection Hk as <-.
  - destruct H as (-> & _ & _). split.
    + simpl. split; [by intros [? ?]|]. intros (_ & -> & ->).
      rewrite andb_false_r in Hsetup. done.
    + apply orb_true_iff in Hsetup as [->| ->]; [done|].
      by destruct (bool_decide (build_script args = None) && dev).
Qed.

Lemma bundle_presence_witness :
  ∃ out ev w',
    build_image example_env (example_args fmt_gpt_squashfs None true false None)
      "root" false false world_fresh = Some (out, ev, w')
    ∧ root_hash out = Some example_root_hash
    ∧ (is_Some (root_hash out) ↔
         verity (example_args fmt_gpt_squashfs None true false None) = true
         ∧ false = false ∧ false = false)
    ∧ presence out =
        expected_presence (example_args fmt_gpt_squashfs None true false None)
          false false
          (cache_exists (example_args fmt_gpt_squashfs None true false None) false
             (fs world_fresh)).
Proof.
  eexists _, _, _. split; [vm_compute; reflexivity|]. split; [reflexivity|].
  eapply (bundle_presence example_env
            (example_args fmt_gpt_squashfs None true false None)
            "root" false false world_fresh).
  vm_compute. reflexivity.
Defined.

(** C7, as stated: with the same configuration and the same kind of pass
    (a cache-populate final pass of an incremental [gpt_ext4] build), the
    bundle has a raw image when the cache image is missing and is empty
    when it exists. *)
Lemma presence_as_stated_fails : ¬ presence_as_stated.
Proof.
  intros H.
  pose proof (H example_env example_env
    (example_args fmt_gpt_ext4 None true true None) "root" false true
    world_fresh world_cached) as H'.
  destruct (build_image example_env (example_args fmt_gpt_ext4 None true true None)
              "root" false true world_fresh) as [[[o1 e1] v1]|] eqn:E1;
    [|vm_compute in E1; discriminate].
  destruct (build_image example_env (example_args fmt_gpt_ext4 None true true None)
              "root" false true world_cached) as [[[o2 e2] v2]|] eqn:E2;
    [|vm_compute in E2; discriminate].
  specialize (H' _ _ _ _ _ _ eq_refl eq_refl).
  assert ((λ x, has_raw (presence (fst (fst x)))) <$> Some (o1, e1, v1) = Some true)
    as A1 by (rewrite <- E1; vm_compute; reflexivity).
  assert ((λ x, has_raw (presence (fst (fst x)))) <$> Some (o2, e2, v2) = Some false)
    as A2 by (rewrite <- E2; vm_compute; reflexivity).
  change (Some (has_raw (presence o1)) = Some true) in A1.
  change (Some (has_raw (presence o2)) = Some false) in A2.
  rewrite H' in A1. congruence.
Qed.

(** ** Reusing a cache *)

Lemma copy_path_other oldpath newpath fs fs' p :
  copy_path oldpath newpath fs = Some fs' → p ≠ newpath → fs' !! p = fs !! p.
Proof.
  unfold copy_path. intros H Hp.
  destruct (fs !! oldpath) as [[| |src|]|]; try done.
  destruct (copy_entries src _) as [merged|]; [|done].
  injection H as <-. by rewrite lookup_insert_ne.
Qed.

Lemma reuse_cache_tree_other args root dev fc cached fs b fs' p :
  reuse_cache_tree args root dev fc cached fs = Some (b, fs') →
  p ≠ root → fs' !! p = fs !! p.
Proof.
  unfold reuse_cache_tree. intros H Hp.
  repeat match type of H with
  | (if ?c then _ else _) = _ => destruct c; [by injection H as _ <-|]
  | (if ?c then _ else _) = _ => destruct c; [|by injection H as _ <-]
  | (if ?c then _ else _) = _ => destruct c
  end; try by injection H as _ <-.
  destruct (cache_name args dev) as [fname|]; [|by injection H as _ <-].
  case_bool_decide; [|by injection H as _ <-].
  destruct (copy_path fname root fs) as [fs1|] eqn:E; [|done].
  injection H as _ <-. by eapply copy_path_other.
Qed.


Lemma entry_lookup_set_ne n name x es :
  n ≠ name → entry_lookup name (entry_set n x es) = entry_lookup name es.
Proof.
  intros Hne. induction es as [|m y r IH]; simpl.
  - by rewrite (proj2 (String.eqb_neq n name)).
  - destruct (String.eqb m n) eqn:Emn; simpl.
    + apply String.eqb_eq in Emn as ->.
      by rewrite (proj2 (String.eqb_neq n name)).
    + destruct (String.eqb m name); [done|apply IH].
Qed.

(** One entry of the source leaves the names other than its own as they
    are in the destination. *)
Lemma copy_entries_step n x dst out name :
  copy_entries (ECons n x ENil) dst = Some out → n ≠ name →
  entry_lookup name out = entry_lookup name dst.
Proof.
  simpl. intros H Hne. destruct x as [data|target|es|].
  - destruct (entry_lookup n dst) as [[| | |]|]; simplify_eq/=;
      by apply entry_lookup_set_ne.
  - destruct (entry_lookup n dst) as [[| | |]|]; simplify_eq/=;
      by apply entry_lookup_set_ne.
  - destruct (copy_entries es _) as [sub|]; simplify_eq/=.
    by apply entry_lookup_set_ne.
  - by simplify_eq/=.
Qed.

Lemma copy_entries_cons n x rest dst :
  copy_entries (ECons n x rest) dst
  = copy_entries (ECons n x ENil) dst ≫= copy_entries rest.
Proof.
  simpl. by destruct (match x with File _ => _ | _ => _ end).
Qed.

Lemma copy_entries_keeps_others src : ∀ dst out name,
  copy_entries src dst = Some out → entry_lookup name src = None →
  entry_lookup name out = entry_lookup name dst.
Proof.
  induction src as [|n x rest IH]; intros dst out name H Hname.
  - by injection H as <-.
  - rewrite copy_entries_cons in H.
    destruct (copy_entries (ECons n x ENil) dst) as [dst'|] eqn:E; [|done].
    cbn [mbind option_bind] in H. simpl in Hname.
    destruct (String.eqb n name) eqn:En; [done|]. apply String.eqb_neq in En.
    rewrite (IH _ _ _ H Hname). by eapply copy_entries_step.
Qed.






(** In contrast, saving a cache moves: the image or the tree is under the
    cache name afterwards, or in the directory of that name, and no
    longer where it was. *)
Lemma move_result src dst fs fs' :
  move src dst fs = Some fs' →
  (fs' = fs ∧ is_Some (fs !! dst)) ∨ ∃ y, fs' = <[dst := y]> (delete src fs).
Proof.
  unfold move. intros H.
  destruct (fs !! src) as [x|]; [|done].
  destruct (fs !! dst) as [[d|t|es|]|] eqn:Ed.
  - destruct x; try done; injection H as <-; right; by eexists.
  - destruct x; try done; injection H as <-; right; by eexists.
  - case_decide; [left; split; [congruence|by eexists]|].
    destruct (entry_lookup _ es); [done|]. injection H as <-. right. by eexists.
  - destruct x; try done; injection H as <-; right; by eexists.
  - injection H as <-. right. by eexists.
Qed.

Lemma move_dst src dst fs fs' :
  move src dst fs = Some fs' → is_Some (fs' !! dst).
Proof.
  intros H. apply move_result in H as [[-> ?]|[y ->]]; [done|].
  rewrite lookup_insert_eq. by eexists.
Qed.

Lemma move_absent src dst fs fs' p :
  move src dst fs = Some fs' → dst ≠ p → fs !! p = None → fs' !! p = None.
Proof.
  intros H Hne Hp. apply move_result in H as [[-> ?]|[y ->]]; [done|].
  rewrite lookup_insert_ne by done. by apply lookup_delete_None; right.
Qed.

Lemma move_inv src dst fs fs' :
  move src dst fs = Some fs' → src ≠ dst →
  ∃ x, fs !! src = Some x ∧ fs' !! src = None
       ∧ match fs !! dst with
         | Some (Dir es) =>
             entry_lookup (basename src) es = None
             ∧ fs' !! dst = Some (Dir (entry_set (basename src) x es))
         | _ => fs' !! dst = Some x
         end.
Proof.
  unfold move. intros H Hne.
  destruct (fs !! src) as [x|] eqn:Es; [|done]. exists x. split; [done|].
  assert (∀ y, <[dst := y]> (delete src fs) !! src = None
               ∧ <[dst := y]> (delete src fs) !! dst = Some y) as Hins.
  { intros y. by rewrite lookup_insert_ne, lookup_delete_eq, lookup_insert_eq. }
  destruct (fs !! dst) as [[d|t|es|]|] eqn:Ed.
  - destruct x; try done; injection H as <-; apply Hins.
  - destruct x; try done; injection H as <-; apply Hins.
  - case_decide; [done|].
    destruct (entry_lookup _ es) eqn:El; [done|]. injection H as <-.
    destruct (Hins (Dir (entry_set (basename src) x es))) as [? ?]. done.
  - destruct x; try done; injection H as <-; apply Hins.
  - injection H as <-. apply Hins.
Qed.

Lemma save_cache_absent args root raw cache_path fs fs' p :
  save_cache args root raw cache_path fs = Some fs' →
  cache_path ≠ Some p → fs !! p = None → fs' !! p = None.
Proof.
  unfold save_cache, unlink_try_hard. intros H Hc Hp.
  destruct (is_disk_rw (output_format args)).
  - destruct raw as [r|], cache_path as [c|]; try by injection H as <-.
    eapply move_absent; [exact H|congruence|done].
  - destruct cache_path as [c|]; [|by injection H as <-].
    eapply move_absent; [exact H|congruence|]. by apply lookup_delete_None; right.
Qed.


(** ** What a pass writes *)

Lemma reuse_cache_image_other env args d fc w raw cached ev w' p :
  reuse_cache_image env args d fc w = Some (raw, cached, ev, w') →
  p ≠ tmp_raw env → fs w' !! p = fs w !! p.
Proof.
  unfold reuse_cache_image, copy_image_temporary. intros H Hp.
  destruct (negb (incremental args)); [by injection H as _ _ _ <-|].
  destruct (negb (is_disk_rw (output_format args))); [by injection H as _ _ _ <-|].
  destruct fc.
  - destruct (cache_name args d) as [c|]; [|by injection H as _ _ _ <-].
    case_bool_decide; by injection H as _ _ _ <-.
  - destruct (cache_name args d) as [c|]; [|by injection H as _ _ _ <-].
    destruct (fs w !! c) as [[data| | |]|]; cbn [mbind option_bind] in H; try done.
    + destruct (determine_partition_table _ _ _) as [[[s t] r]|];
        cbn [mbind option_bind] in H; [|done].
      injection H as _ _ _ <-. simpl. by rewrite lookup_insert_ne.
    + by injection H as _ _ _ <-.
Qed.

Lemma create_image_other env args w raw ev w' p :
  create_image env args w = Some (raw, ev, w') →
  p ≠ tmp_raw env → fs w' !! p = fs w !! p.
Proof.
  unfold create_image. intros H Hp.
  destruct (negb (is_disk (output_format args))); [by injection H as _ _ <-|].
  destruct (image_size args (slots w)) as [sz|]; [|done].
  cbn [mbind option_bind] in H. case_guard; [|done].
  cbn [mbind option_bind] in H.
  destruct (exec_sfdisk _ _ _ _) as [[s e]|]; [|done].
  cbn [mbind option_bind] in H. injection H as _ _ <-. simpl.
  by rewrite lookup_insert_ne.
Qed.

Lemma build_image_setup_other env args d fc w setup ev w' p :
  build_image_setup env args d fc w = Some (setup, ev, w') →
  p ≠ tmp_raw env → fs w' !! p = fs w !! p.
Proof.
  unfold build_image_setup. intros H Hp.
  destruct (bool_decide (build_script args = None) && d); [by injection H as _ _ <-|].
  destruct (reuse_cache_image env args d fc w) as [[[[raw cached] ev1] w1]|] eqn:Er;
    [|done].
  cbn [mbind option_bind] in H.
  apply reuse_cache_image_other with (p := p) in Er; [|done].
  destruct (fc && cached); [by injection H as _ _ <-|].
  destruct cached.
  - destruct raw as [f|]; [|done]. cbn [mbind option_bind] in H.
    destruct (refresh_partition_table env args f (slots w1)) as [[s e]|]; [|done].
    cbn [mbind option_bind] in H. by injection H as _ _ <-.
  - destruct (create_image env args w1) as [[[r e] w2]|] eqn:Ec; [|done].
    cbn [mbind option_bind] in H. injection H as _ _ <-.
    apply create_image_other with (p := p) in Ec; [|done]. congruence.
Qed.

Lemma ensure_dir_other path fs fs' p :
  ensure_dir path fs = Some fs' → p ≠ path → fs' !! p = fs !! p.
Proof.
  unfold ensure_dir. intros H Hp.
  destruct (fs !! path) as [[| | |]|]; try done.
  - by injection H as <-.
  - injection H as <-. by rewrite lookup_insert_ne.
Qed.

Lemma build_image_other env args root d fc w out ev w' p :
  build_image env args root d fc w = Some (out, ev, w') →
  p ≠ root → p ≠ tmp_raw env →
  fs w' !! p = fs w !! p.
Proof.
  intros H Hroot Hraw.
  apply build_image_inv in H as (setup & ev0 & w0 & Hsetup & H).
  apply build_image_setup_other with (p := p) in Hsetup; [|done].
  destruct setup as [[raw cached]|].
  - destruct H as (pt & ev1 & evpost & fs2 & kernel & _ & _ & _ & _ & -> & H).
    destruct H as (fs1 & ct & He & Ht). simpl.
    apply ensure_dir_other with (p := p) in He; [|done].
    apply reuse_cache_tree_other with (p := p) in Ht; [|done]. congruence.
  - by destruct H as (_ & _ & ->).
Qed.

(** In a cache-populate pass the steps from the generated root to the
    verity partition do nothing. *)
Lemma build_image_partitions_for_cache env args slots done raw loopdev dev d :
  build_image_partitions env args slots done raw loopdev dev d true
  = Some (mkPartitioned None None None None slots []).
Proof.
  unfold build_image_partitions.
  assert (make_generated_root env args true = (None, [])) as ->.
  { unfold make_generated_root. by repeat case_match. }
  assert (insert_generated_root env args slots (done ++ []) raw loopdev None true
          = Some (slots, [])) as ->.
  { unfold insert_generated_root. by repeat case_match. }
  cbn [mbind option_bind].
  assert (extract_partition env args dev d true = Some None) as ->.
  { unfold extract_partition. by destruct d. }
  assert (make_verity env args dev d true = Some (None, [])) as ->.
  { unfold make_verity. by destruct (d || negb (verity args)). }
  by destruct (split_artifacts args).
Qed.




Lemma remove_artifacts_other env args root d fc fs p :
  p ≠ root → p ≠ var_tmp env root → p ≠ root_home env root →
  remove_artifacts env args root d fc fs !! p = fs !! p.
Proof.
  unfold remove_artifacts, unlink_try_hard. intros H1 H2 H3.
  destruct (fc || d); [|done].
  destruct (usr_only args); by rewrite !lookup_delete_ne.
Qed.

(** ** The cache-populate stage *)

Lemma count_built_app d c l1 l2 :
  count_built d c (l1 ++ l2) = (count_built d c l1 + count_built d c l2)%nat.
Proof. unfold count_built. by rewrite List.filter_app, length_app. Qed.


(** After a final pass, [remove_artifacts] is called without
    [for_cache] and returns at once. *)
Lemma remove_artifacts_final env args root fs :
  remove_artifacts env args root false false fs = fs.
Proof. reflexivity. Qed.

Lemma cache_pass_inv env args root d w image log w' :
  cache_pass env args root d w = Some (image, log, w') →
  ∃ ev w1 fs1,
    build_image env args root d true w = Some (image, ev, w1)
    ∧ save_cache args root (raw image) (cache_name args d) (fs w1) = Some fs1
    ∧ w' = mkWorld (remove_artifacts env args root d false fs1) (slots w1)
    ∧ log = [ Step (if d then msg_cache_dev else msg_cache_final);
              Built d true image ev;
              SavedCache (raw image) (cache_name args d);
              RemovedArtifacts d false ].
Proof.
  unfold cache_pass. intros H.
  destruct (build_image env args root d true w) as [[[im ev] w1]|] eqn:Eb; [|done].
  cbn [mbind option_bind] in H.
  destruct (save_cache args root (raw im) (cache_name args d) (fs w1)) as [fs1|] eqn:Es;
    [|done].
  cbn [mbind option_bind] in H. injection H as <- <- <-.
  by exists ev, w1, fs1.
Qed.

(** After a cache block the cache of its stage exists. *)
Lemma cache_pass_cache_exists env args root d w image log w' c :
  cache_pass env args root d w = Some (image, log, w') →
  cache_name args d = Some c →
  (is_disk_rw (output_format args) = true → is_disk (output_format args) = true) →
  (d = true → is_Some (build_script args)) →
  c ≠ root → c ≠ var_tmp env root → c ≠ root_home env root → c ≠ tmp_raw env →
  is_Some (fs w' !! c).
Proof.
  intros H Hc Hdisk Hscript Hroot Hvar Hhome Hraw.
  apply cache_pass_inv in H as (ev & w1 & fs1 & Hb & Hs & -> & _).
  simpl. rewrite remove_artifacts_other by done.
  rewrite Hc in Hs. unfold save_cache, unlink_try_hard in Hs.
  destruct (is_disk_rw (output_format args)) eqn:Erw;
    [|by apply move_dst in Hs].
  destruct (raw image) as [r|] eqn:Eraw; [by apply move_dst in Hs|].
  injection Hs as <-.
  rewrite (build_image_other _ _ _ _ _ _ _ _ _ c Hb) by done.
  apply build_image_inv in Hb as (setup & ev0 & w0 & Hsetup & Hb).
  apply build_image_setup_inv in Hsetup. cbv zeta in Hsetup.
  destruct setup as [[raw0 cached]|].
  - destruct Hsetup as (_ & _ & _ & Hpres & _).
    destruct Hb as (pt & ev1 & evpost & fs2 & kernel & _ & _ & _ & -> & _).
    simpl in Eraw. rewrite Hdisk, orb_true_r in Hpres by done.
    by destruct raw0.
  - assert (bool_decide (build_script args = None) && d = false) as Hnone.
    { destruct d; [|by rewrite andb_false_r].
      destruct (Hscript eq_refl) as [b ->]. done. }
    rewrite Hnone in Hsetup. simpl in Hsetup.
    apply andb_true_iff in Hsetup as [_ Hex].
    unfold cache_exists in Hex. rewrite Hc in Hex.
    by apply bool_decide_eq_true in Hex.
Qed.





(* ===================================================================== *)
(** * Further properties of the code *)
(* ===================================================================== *)

(** ** Rounding and the footer *)

(** X1: [roundup] gives the least multiple of a positive [step] that is not
    below [x]. *)
Theorem roundup_least_multiple x step :
  0 < step →
  ∃ r, roundup x step = Some r
       ∧ (step | r) ∧ x ≤ r
       ∧ ∀ m, (step | m) → x ≤ m → r ≤ m.
Proof.
  intros Hs. exists (((x + step - 1) / step) * step).
  assert (roundup x step = Some ((x + step - 1) / step * step)) as Hr
    by (apply roundup_Some; lia).
  split; [done|]. split; [by eapply roundup_multiple|].
  pose proof (roundup_ge _ _ _ Hs Hr) as [Hge Hlt]. split; [done|].
  intros m [k ->] Hm.
  destruct (Z_le_gt_dec ((x + step - 1) / step) k) as [Hk|Hk]; [nia|].
  exfalso. nia.
Qed.

Lemma roundup_least_multiple_witness :
  0 < 4096 ∧ ∃ r, roundup 37888 4096 = Some r
                  ∧ (4096 | r) ∧ 37888 ≤ r
                  ∧ ∀ m, (4096 | m) → 37888 ≤ m → r ≤ m.
Proof. split; [lia|]. apply (roundup_least_multiple 37888 4096). lia. Defined.

(** X2: A value that is already a multiple of the step is left as it is, so
    rounding twice is rounding once. *)
Theorem roundup_idempotent x step r :
  0 < step → roundup x step = Some r → roundup r step = Some r.
Proof.
  intros Hs H. apply roundup_fixed; [done|]. by eapply roundup_multiple.
Qed.

Lemma roundup_idempotent_witness :
  0 < 512 ∧ roundup 1000 512 = Some 1024 ∧ roundup 1024 512 = Some 1024.
Proof.
  split; [lia|]. split; [reflexivity|].
  apply (roundup_idempotent 1000 512 1024); [lia|reflexivity].
Defined.

(** X3: [footer_size] raises exactly when the sector size is zero (the
    division of [math.ceil(max_partitions * 128 / self.sector_size)]). *)
Theorem footer_size_fails_iff t :
  footer_size t = None ↔ sector_size t = 0.
Proof.
  unfold footer_size, footer_size_of, ceil_div.
  case_decide; [by split|].
  case_decide; cbn [mbind option_bind]; split; done.
Qed.

(** X4: For a positive sector size below 2^53 the footer is a whole number
    of sectors: one for the header and the fewest that hold the 16384
    bytes of the partition entry array. *)
Theorem footer_size_sectors t :
  0 < sector_size t < 2 ^ 53 →
  ∃ pea, footer_size t = Some ((1 + pea) * sector_size t)
         ∧ 128 * 128 ≤ pea * sector_size t
         ∧ ∀ n, 128 * 128 ≤ n * sector_size t → pea ≤ n.
Proof.
  intros Hs. destruct (footer_size_positive t Hs) as (pea & Hf & Hlo & Hhi).
  exists pea. split; [done|]. split; [done|]. intros n Hn. nia.
Qed.

Lemma footer_size_sectors_witness :
  0 < sector_size (mkPartitionTable [] None 4096 None 4096) < 2 ^ 53
  ∧ ∃ pea, footer_size (mkPartitionTable [] None 4096 None 4096)
             = Some ((1 + pea) * 4096)
           ∧ 128 * 128 ≤ pea * 4096
           ∧ ∀ n, 128 * 128 ≤ n * 4096 → pea ≤ n.
Proof.
  split; [simpl; lia|].
  apply (footer_size_sectors (mkPartitionTable [] None 4096 None 4096)).
  simpl. lia.
Defined.

(** X5: The first usable offset is a multiple of the grain unless it is the
    configured first LBA, which is used as it is. *)
Theorem first_usable_offset_aligned t off :
  first_usable_offset t = Some off →
  truthy (last_partition_sector t) = true ∨ first_lba t = None →
  (grain t | off).
Proof.
  unfold first_usable_offset. intros H Hc.
  destruct (truthy (last_partition_sector t)).
  - by eapply roundup_multiple.
  - destruct Hc as [|Hl]; [done|]. rewrite Hl in H.
    destruct (footer_size t) as [f|]; [|done]. simpl in H.
    by eapply roundup_multiple.
Qed.

Lemma first_usable_offset_aligned_witness :
  first_usable_offset table_one_partition = Some 268455936
  ∧ (truthy (last_partition_sector table_one_partition) = true
     ∨ first_lba table_one_partition = None)
  ∧ (grain table_one_partition | 268455936).
Proof.
  split; [reflexivity|]. split; [left; reflexivity|].
  apply (first_usable_offset_aligned table_one_partition 268455936);
    [reflexivity|left; reflexivity].
Defined.

(** A configured first LBA need not be aligned: LBA 41 gives offset
    20992, which is no multiple of 4096. *)
Example first_lba_not_aligned :
  first_usable_offset (empty (Some 41)) = Some 20992 ∧ 20992 mod 4096 ≠ 0.
Proof. split; [reflexivity|done]. Qed.

(** ** Reading the partitioner's dump *)

(** X6: What [read] returns: the default grain, and as last occupied offset
    the largest [start + size] among its descriptors, in bytes. *)
Theorem read_records_largest_end dump t :
  read dump = Some t →
  last_partition_sector t = Some (ends_max 0 (partitions t) * sector_size t)
  ∧ grain t = 4096.
Proof. apply read_table. Qed.

Lemma read_records_largest_end_witness :
  ∃ t, read dump_one_sector = Some t
       ∧ partitions t =
           ["/dev/loop0p1 : start=          40, size=           1, type=4F68BCE3-E8CD-4DB1-96E7-FBCAF984B709"]
       ∧ last_partition_sector t = Some (ends_max 0 (partitions t) * sector_size t)
       ∧ grain t = 4096.
Proof.
  eexists. split; [vm_compute; reflexivity|]. split; [reflexivity|].
  apply (read_records_largest_end dump_one_sector). vm_compute. reflexivity.
Defined.

(** X7: A table read from descriptors that all state a start and a size with
    a positive end has a last occupied sector exactly when it has
    partitions. *)
Theorem read_table_consistent dump t :
  read dump = Some t →
  sector_size t ≠ 0 →
  (∀ line, line ∈ partitions t → ∃ e, descriptor_end line = Some (Some e) ∧ 0 < e) →
  (partitions t ≠ [] ↔ truthy (last_partition_sector t) = true).
Proof. apply read_consistent. Qed.

Lemma read_table_consistent_witness :
  ∃ t, read dump_one_sector = Some t
       ∧ (partitions t ≠ [] ↔ truthy (last_partition_sector t) = true).
Proof.
  eexists. split; [vm_compute; reflexivity|].
  eapply (read_table_consistent dump_one_sector).
  - vm_compute. reflexivity.
  - discriminate.
  - intros line Hl. apply list_elem_of_singleton in Hl as ->.
    exists 41. split; [vm_compute; reflexivity|lia].
Defined.

Lemma read_line_header st line st' :
  rs_in_body st = false →
  read_line st line = Some st' →
  strip line ≠ "" →
  rs_in_body st' = false ∧ rs_table st' = rs_table st
  ∧ rs_last_sector st' = rs_last_sector st.
Proof.
  unfold read_line. intros Hb H Hne. rewrite Hb in H. simpl in H.
  destruct (if startswith "sector-size:" (strip line) then _ else _) as [ss|];
    simpl in H; [|done].
  destruct (if startswith "first-lba:" (strip line) then _ else _) as [fl|];
    simpl in H; [|done].
  destruct (String.eqb_spec (strip line) ""); [done|]. by injection H as <-.
Qed.

(** X8: The descriptors begin after the first blank line: a dump without one
    gives a table without partitions and no occupied sector. *)
Theorem read_without_blank_line dump t :
  read dump = Some t →
  Forall (λ line, strip line ≠ "") dump →
  partitions t = [] ∧ last_partition_sector t = Some 0.
Proof.
  unfold read. intros H Hall.
  destruct (read_loop read_init dump) as [st|] eqn:E; simpl in H; [|done].
  injection H as <-. simpl.
  assert (rs_in_body st = false ∧ rs_table st = [] ∧ rs_last_sector st = 0)
    as (_ & -> & ->); [|done].
  assert (rs_in_body read_init = false ∧ rs_table read_init = []
          ∧ rs_last_sector read_init = 0) as Hinit by done.
  revert E Hinit. generalize read_init. induction Hall as [|line rest Hl _ IH];
    intros st0 E Hinit; simpl in E.
  - by injection E as <-.
  - destruct (read_line st0 line) as [st1|] eqn:E1; simpl in E; [|done].
    destruct Hinit as (Hb & Ht & Hs).
    destruct (read_line_header _ _ _ Hb E1 Hl) as (Hb' & Ht' & Hs').
    apply (IH st1 E). by rewrite Hb', Ht', Hs'.
Qed.

Lemma read_without_blank_line_witness :
  ∃ t, read ["label: gpt"; "first-lba: 40"; "sector-size: 4096"] = Some t
       ∧ sector_size t = 4096 ∧ first_lba t = Some 40
       ∧ partitions t = [] ∧ last_partition_sector t = Some 0.
Proof.
  eexists. split; [vm_compute; reflexivity|].
  split; [reflexivity|]. split; [reflexivity|].
  apply (read_without_blank_line ["label: gpt"; "first-lba: 40"; "sector-size: 4096"]).
  - vm_compute. reflexivity.
  - repeat constructor; vm_compute; discriminate.
Defined.

Lemma prefix_has_char c p s :
  String.prefix p s = true →
  is_Some (after_first c (list_ascii_of_string p)) →
  is_Some (after_first c (list_ascii_of_string s)).
Proof.
  revert s. induction p as [|a p IH]; intros s Hp Hc; simpl in *.
  - by destruct Hc.
  - destruct s as [|b s]; [done|]. simpl in Hp.
    destruct (ascii_dec a b) as [<-|]; [|done]. simpl.
    destruct (Ascii.eqb a c); [done|]. by apply IH.
Qed.

(** X9: A line of the body that has no colon cannot be unpacked: [read]
    raises on it, whatever came before and whatever follows. *)
Theorem read_line_without_colon st line :
  rs_in_body st = true →
  strip line ≠ "" →
  after_first ":" (list_ascii_of_string (strip line)) = None →
  read_line st line = None.
Proof.
  intros Hb Hne Hc. unfold read_line. rewrite Hb.
  destruct (startswith "sector-size:" (strip line)) eqn:E1.
  { apply (prefix_has_char ":") in E1; [|by eexists]. rewrite Hc in E1.
    by destruct E1. }
  destruct (startswith "first-lba:" (strip line)) eqn:E2.
  { apply (prefix_has_char ":") in E2; [|by eexists]. rewrite Hc in E2.
    by destruct E2. }
  simpl. destruct (String.eqb_spec (strip line) ""); [done|]. simpl.
  unfold descriptor_end, descriptor_fields, split1_rest. by rewrite Hc.
Qed.

Lemma read_line_without_colon_witness :
  read_line (mkReadState [] 0 512 None true) "  start=40, size=8 " = None
  ∧ read ["label: gpt"; ""; "start=40, size=8"] = None.
Proof.
  split; [|vm_compute; reflexivity].
  apply read_line_without_colon; [reflexivity|vm_compute; discriminate|].
  vm_compute. reflexivity.
Defined.

(** ** More on insertions *)

(** X10: The first insertion on an image without a table cannot fail in the
    engine when the blob is smaller than 2^62 bytes and, for the root
    under [encrypt == "all"], a passphrase is set: nothing is read, every
    size computed is defined and fits [off_t], and the table written
    starts the partitions at sector 40, behind the protective MBR and the
    header. *)
Theorem insert_partition_first_succeeds args slots dump raw loopdev partno blob
    st_size name type_uuid read_only uuid_opt :
  ran_sfdisk slots = false → gpt_first_lba args = None →
  0 ≤ st_size < 2 ^ 62 →
  (root_partno slots = Some partno → encrypt args = Some "all" →
   is_Some (passphrase args)) →
  ∃ r, insert_partition args slots dump raw loopdev partno blob st_size
         name type_uuid read_only uuid_opt = Some r
       ∧ ins_script r =
           [ "label: gpt"; "grain: 4096"; "first-lba: 40";
             new_descriptor ((ins_returned r + luks_extra args) / 512) name
               type_uuid read_only uuid_opt ].
Proof.
  intros Hr Hl Hs Hpass.
  destruct (insert_partition_fresh_total args slots dump raw loopdev partno blob
              st_size name type_uuid read_only uuid_opt Hr Hl Hs Hpass) as [r Hi].
  exists r. split; [done|].
  apply insert_partition_inv in Hi
    as (old & bs & off & foot & Ho & _ & Hoff & _ & _ & _ & -> & _
        & (fl & Hfl & Hscript) & _).
  unfold old_table_of in Ho. rewrite Hr, Hl in Ho. injection Ho as <-.
  injection Hoff as <-. rewrite Hl in Hfl. simpl in Hfl. subst fl.
  exact Hscript.
Qed.

Lemma insert_partition_first_succeeds_witness :
  ∃ r, insert_partition (example_args fmt_gpt_ext4 None true false None)
         slots_fresh [] "image.raw" "/dev/loop0" 1 "blob" 1000 "Root Partition"
         GPT_ROOT_X86_64 false None = Some r
       ∧ ins_script r =
           [ "label: gpt"; "grain: 4096"; "first-lba: 40";
             new_descriptor
               ((ins_returned r
                 + luks_extra (example_args fmt_gpt_ext4 None true false None)) / 512)
               "Root Partition" GPT_ROOT_X86_64 false None ].
Proof.
  apply (insert_partition_first_succeeds
           (example_args fmt_gpt_ext4 None true false None) slots_fresh []
           "image.raw" "/dev/loop0" 1 "blob" 1000 "Root Partition"
           GPT_ROOT_X86_64 false None);
    [reflexivity|reflexivity|lia|discriminate].
Defined.

(** X11: The sector count that the new descriptor carries in its [size=]
    field loses nothing to the division: times 512 it is the rounded blob
    together with the reservation, and the rounded blob is less than 512
    bytes above the blob. *)
Theorem insert_partition_sectors_exact args slots dump raw loopdev partno blob
    st_size name type_uuid read_only uuid_opt r :
  insert_partition args slots dump raw loopdev partno blob st_size name
    type_uuid read_only uuid_opt = Some r →
  ∃ n_sectors,
    last (ins_script r) =
      Some (match uuid_opt with
            | Some u => "uuid=" +:+ UUID_str u +:+ ", "
            | None => ""
            end +:+
            "size=" +:+ pretty n_sectors +:+ ", type=" +:+ UUID_str type_uuid +:+
            ", attrs=" +:+ (if read_only then "GUID:60" else "") +:+
            ", name=" +:+ dquote +:+ name +:+ dquote)
    ∧ n_sectors * 512 = ins_returned r + luks_extra args
    ∧ st_size ≤ ins_returned r < st_size + 512.
Proof.
  intros H.
  destruct (insert_partition_size_field _ _ _ _ _ _ _ _ _ _ _ _ _ H)
    as (n & Hn & Hlast).
  exists n. split; [exact Hlast|]. split; [exact Hn|].
  apply insert_partition_inv in H
    as (old & bs & off & foot & _ & Hb & _ & _ & _ & _ & -> & _).
  assert (0 < 512) as H512 by lia.
  exact (roundup_ge _ _ _ H512 Hb).
Qed.

Lemma insert_partition_sectors_exact_witness :
  ∃ r,
    insert_partition (example_args fmt_gpt_ext4 (Some "all") true false None)
      slots_fresh [] "image.raw" "/dev/loop0" 1 "blob" 1000 "Root Partition"
      GPT_ROOT_X86_64 false None = Some r
    ∧ ∃ n_sectors,
        last (ins_script r)
        = Some ("size=" +:+ pretty n_sectors +:+ ", type=" +:+
                UUID_str GPT_ROOT_X86_64 +:+ ", attrs=" +:+ ", name=" +:+ dquote +:+
                "Root Partition" +:+ dquote)
        ∧ n_sectors * 512
          = ins_returned r
            + luks_extra (example_args fmt_gpt_ext4 (Some "all") true false None)
        ∧ 1000 ≤ ins_returned r < 1000 + 512.
Proof.
  eexists. split; [vm_compute; reflexivity|].
  exact (insert_partition_sectors_exact
    (example_args fmt_gpt_ext4 (Some "all") true false None)
    slots_fresh [] "image.raw" "/dev/loop0" 1 "blob" 1000 "Root Partition"
    GPT_ROOT_X86_64 false None _ ltac:(vm_compute; reflexivity)).
Defined.

(** X12: Only the root is written through LUKS: an insertion formats and opens
    a mapping exactly when it inserts the root partition and
    [encrypt == "all"]; any other partition is written to its device
    node, although the 16 MiB are reserved for it as well. *)
Theorem insert_partition_luks_only_root args slots dump raw loopdev partno blob
    st_size name type_uuid read_only uuid_opt r :
  insert_partition args slots dump raw loopdev partno blob st_size name
    type_uuid read_only uuid_opt = Some r →
  (LuksFormat loopdev partno ∈ ins_events r
   ↔ root_partno slots = Some partno ∧ encrypt args = Some "all")
  ∧ (Dd blob (PartitionOf loopdev partno) ∈ ins_events r
     ↔ ¬ (root_partno slots = Some partno ∧ encrypt args = Some "all"))
  ∧ (Dd blob LuksMapping ∈ ins_events r
     ↔ root_partno slots = Some partno ∧ encrypt args = Some "all").
Proof.
  unfold insert_partition. intros H.
  destruct (old_table_of args slots dump) as [old|]; [|done].
  cbn [mbind option_bind] in H.
  destruct (roundup st_size 512) as [bs|]; [|done]. cbn [mbind option_bind] in H.
  destruct (first_usable_offset old) as [off|]; [|done].
  cbn [mbind option_bind] in H.
  destruct (footer_size old) as [foot|]; [|done]. cbn [mbind option_bind] in H.
  destruct (roundup _ 4096) as [ns|]; [|done]. cbn [mbind option_bind] in H.
  repeat case_guard; cbn [mbind option_bind mret option_ret] in H; try done.
  injection H as <-. cbn [ins_events].
  case_bool_decide as Hc; cbn [app].
  - split; [|split]; split; intros Hin; try done.
    + rewrite !elem_of_cons. do 5 right. by left.
    + exfalso. rewrite !elem_of_cons in Hin.
      repeat (destruct Hin as [Hin|Hin]; [done|]). by apply not_elem_of_nil in Hin.
    + rewrite !elem_of_cons. do 7 right. by left.
  - split; [|split]; split; intros Hin; try done.
    + exfalso. rewrite !elem_of_cons in Hin.
      repeat (destruct Hin as [Hin|Hin]; [done|]). by apply not_elem_of_nil in Hin.
    + rewrite !elem_of_cons. do 5 right. by left.
    + exfalso. rewrite !elem_of_cons in Hin.
      repeat (destruct Hin as [Hin|Hin]; [done|]). by apply not_elem_of_nil in Hin.
Qed.

Lemma insert_partition_luks_only_root_witness :
  ∃ r,
    insert_partition (example_args fmt_gpt_ext4 (Some "all") true false None)
      (mkSlots true (Some 1) None None None None None None None (Some 2) (Some 3) None)
      dump_one_sector "image.raw" "/dev/loop0" 3 ".mkosi-verity" 4096 "Root Verity"
      GPT_ROOT_X86_64_VERITY true None = Some r
    ∧ Dd ".mkosi-verity" (PartitionOf "/dev/loop0" 3) ∈ ins_events r.
Proof.
  eexists. split; [vm_compute; reflexivity|].
  destruct (insert_partition_luks_only_root
    (example_args fmt_gpt_ext4 (Some "all") true false None)
    (mkSlots true (Some 1) None None None None None None None (Some 2) (Some 3) None)
    dump_one_sector "image.raw" "/dev/loop0" 3 ".mkosi-verity" 4096 "Root Verity"
    GPT_ROOT_X86_64_VERITY true None _ ltac:(vm_compute; reflexivity))
    as (_ & H & _).
  apply H. intros [Hc _]. discriminate Hc.
Defined.

(** ** Partition numbers, names and types *)

Lemma add_slot_numbers size type name sets_run nb o nb' L :
  add_slot size type name sets_run nb = (o, nb') →
  L = seqZ 1 (nb_pn nb - 1) ∧ 1 ≤ nb_pn nb →
  L ++ omap id [o] = seqZ 1 (nb_pn nb' - 1) ∧ 1 ≤ nb_pn nb'.
Proof.
  unfold add_slot. intros H [HL Hpn]. destruct size as [sz|].
  - injection H as <- <-. simpl. split; [|lia].
    replace (nb_pn nb + 1 - 1) with ((nb_pn nb - 1) + 1) by lia.
    rewrite seqZ_app by lia. rewrite HL. f_equal.
    replace (1 + (nb_pn nb - 1)) with (nb_pn nb) by lia. done.
  - injection H as <- <-. simpl. by rewrite app_nil_r.
Qed.

(** X13: Numbers are given out once, in the fixed order of the roles and
    without gaps: the numbers of the partitions before the root, followed
    by the root's, count up from 1. *)
Theorem number_partitions_consecutive machine args n nb :
  number_partitions machine args = Some (n, nb) →
  numbers_given n ++ [nb_pn nb]
  = seqZ 1 (Z.of_nat (length (numbers_given n)) + 1).
Proof.
  unfold number_partitions. intros H.
  match type of H with
  | (?boot ≫= _) = _ =>
      assert (∃ esp bios nb0, boot = Some (esp, bios, nb0)
                ∧ omap id [esp; bios] = seqZ 1 (nb_pn nb0 - 1)
                ∧ 1 ≤ nb_pn nb0) as (esp & bios & nb0 & Hboot & H0 & Hp0)
  end; [|rewrite Hboot in H].
  { destruct (bootable args); [|by eexists _, _, _].
    destruct (string_in "uefi" (boot_protocols args)).
    - destruct (esp_size args) as [sz|]; [|done].
      destruct (string_in "bios" (boot_protocols args)); by eexists _, _, _.
    - destruct (string_in "bios" (boot_protocols args)); by eexists _, _, _. }
  clear Hboot. cbn [mbind option_bind] in H.
  destruct (add_slot (xbootldr_size args) _ _ _ nb0) as [xb nb1] eqn:E1.
  destruct (add_slot (swap_size args) _ _ _ nb1) as [sw nb2] eqn:E2.
  pose proof (add_slot_numbers _ _ _ _ _ _ _ _ E1 (conj eq_refl Hp0)) as [H1 Hp1].
  rewrite <- H0 in H1.
  pose proof (add_slot_numbers _ _ _ _ _ _ _ _ E2 (conj H1 Hp1)) as [H2 Hp2].
  assert (∃ home srv var tmp nb6,
            numbers_given (mkNumbers esp bios xb sw home srv var tmp)
              = seqZ 1 (nb_pn nb6 - 1) ∧ 1 ≤ nb_pn nb6
            ∧ ∃ nbr, nb_pn nbr = nb_pn nb6
                     ∧ Some (mkNumbers esp bios xb sw home srv var tmp, nbr)
                       = Some (n, nb)) as (home & srv & var & tmp & nb6 & H6 & Hp6 & Hn).
  { destruct (negb (bool_decide (kind (output_format args) = gpt_btrfs))).
    - destruct (add_slot (home_size args) _ _ _ nb2) as [ho nb3] eqn:E3.
      destruct (add_slot (srv_size args) _ _ _ nb3) as [sr nb4] eqn:E4.
      destruct (add_slot (var_size args) _ _ _ nb4) as [va nb5] eqn:E5.
      destruct (add_slot (tmp_size args) _ _ _ nb5) as [tm nb6] eqn:E6.
      pose proof (add_slot_numbers _ _ _ _ _ _ _ _ E3 (conj H2 Hp2)) as [H3 Hp3].
      pose proof (add_slot_numbers _ _ _ _ _ _ _ _ E4 (conj H3 Hp3)) as [H4 Hp4].
      pose proof (add_slot_numbers _ _ _ _ _ _ _ _ E5 (conj H4 Hp4)) as [H5 Hp5].
      pose proof (add_slot_numbers _ _ _ _ _ _ _ _ E6 (conj H5 Hp5)) as [H6 Hp6].
      exists ho, sr, va, tm, nb6. split; [|split; [done|]].
      + rewrite <- H6. unfold numbers_given.
        by destruct esp, bios, xb, sw, ho, sr, va, tm.
      + destruct (negb (is_generated_root args)).
        * destruct (gpt_root_native _ _ _) as [pair|];
            cbn [mbind option_bind] in H; [|done].
          eexists. split; [|exact H]. done.
        * cbn [mbind option_bind] in H. eexists. split; [|exact H]. done.
    - exists None, None, None, None, nb2. split; [|split; [done|]].
      + rewrite <- H2. unfold numbers_given.
        by destruct esp, bios, xb, sw.
      + destruct (negb (is_generated_root args)).
        * destruct (gpt_root_native _ _ _) as [pair|];
            cbn [mbind option_bind] in H; [|done].
          eexists. split; [|exact H]. done.
        * cbn [mbind option_bind] in H. eexists. split; [|exact H]. done. }
  destruct Hn as (nbr & Hr & [= <- <-]).
  rewrite H6, Hr, length_seqZ.
  replace (Z.of_nat (Z.to_nat (nb_pn nb6 - 1)) + 1) with ((nb_pn nb6 - 1) + 1) by lia.
  rewrite seqZ_app by lia. f_equal.
  replace (1 + (nb_pn nb6 - 1)) with (nb_pn nb6) by lia. done.
Qed.

Lemma number_partitions_consecutive_witness :
  ∃ n nb,
    number_partitions "x86_64" example_args_many = Some (n, nb)
    ∧ numbers_given n = [1; 2; 3; 4; 5]
    ∧ numbers_given n ++ [nb_pn nb]
      = seqZ 1 (Z.of_nat (length (numbers_given n)) + 1).
Proof.
  eexists _, _. split; [vm_compute; reflexivity|]. split; [reflexivity|].
  apply (number_partitions_consecutive "x86_64" example_args_many).
  vm_compute. reflexivity.
Defined.

(** X14: With an image id the root and the verity partition get the same
    name; without one they get different, descriptive names. *)
Theorem root_partition_name_uniform args :
  root_partition_name args true = root_partition_name args false
  ↔ is_Some (image_id args).
Proof.
  unfold root_partition_name. destruct (image_id args) as [id|].
  - split; [by eexists|]. by destruct (image_version args).
  - split; [|by intros [? ?]]. destruct (usr_only args); discriminate.
Qed.

(** X15: An architecture outside the table is fatal, and for the others the
    type of the verity partition differs from the type of the root. *)
Theorem gpt_root_native_table machine arch usr_only :
  (gpt_root_native machine arch usr_only = None
   ↔ string_in (default machine arch)
       ["i386"; "i486"; "i586"; "i686"; "x86_64"; "aarch64"; "armv7l"] = false)
  ∧ ∀ pair, gpt_root_native machine arch usr_only = Some pair →
            pair_root pair ≠ pair_verity pair.
Proof.
  unfold gpt_root_native, string_in. simpl.
  destruct usr_only;
    destruct (String.eqb (default machine arch) "i386"),
             (String.eqb (default machine arch) "i486"),
             (String.eqb (default machine arch) "i586"),
             (String.eqb (default machine arch) "i686"),
             (String.eqb (default machine arch) "x86_64"),
             (String.eqb (default machine arch) "aarch64"),
             (String.eqb (default machine arch) "armv7l"); simpl;
    (split; [split; done|]); intros pair [= <-]; discriminate.
Qed.

Lemma string_of_list_ascii_app l1 l2 :
  string_of_list_ascii (l1 ++ l2)
  = string_of_list_ascii l1 +:+ string_of_list_ascii l2.
Proof. induction l1 as [|a l1 IH]; simpl; [done|]. by rewrite IH. Qed.

Lemma length_list_ascii_of_string s :
  length (list_ascii_of_string s) = String.length s.
Proof. induction s as [|a s IH]; simpl; [done|]. by rewrite IH. Qed.

(** X16: For a root hash of 64 characters, as SHA-256 gives, the part used for
    the root UUID and the part used for the verity UUID are the two halves
    of the hash: together they are the hash. *)
Theorem root_hash_halves h :
  String.length h = 64%nat →
  slice_to 32 h +:+ slice_last 32 h = h.
Proof.
  intros Hl. unfold slice_to, slice_last.
  rewrite length_list_ascii_of_string, Hl.
  rewrite <- string_of_list_ascii_app.
  change (64 - 32)%nat with 32%nat. rewrite take_drop.
  apply string_of_list_ascii_of_string.
Qed.

Lemma root_hash_halves_witness :
  String.length example_root_hash = 64%nat
  ∧ slice_to 32 example_root_hash +:+ slice_last 32 example_root_hash
    = example_root_hash.
Proof. split; [reflexivity|]. apply root_hash_halves. reflexivity. Defined.

(** X17: A root hash of fewer than 32 characters is no UUID: patching the
    root UUID raises. *)
Theorem patch_root_uuid_short_hash args slots loopdev h :
  (String.length h < 32)%nat →
  patch_root_uuid args slots (Some loopdev) (Some h) false = None.
Proof.
  intros Hl. unfold patch_root_uuid, UUID_of_hex, slice_to. simpl.
  rewrite list_ascii_of_string_of_list_ascii, length_take.
  rewrite length_list_ascii_of_string.
  rewrite decide_False by lia. done.
Qed.

Lemma patch_root_uuid_short_hash_witness :
  (String.length "0123abcd" < 32)%nat
  ∧ patch_root_uuid (example_args fmt_gpt_squashfs None true false None)
      slots_fresh (Some "/dev/loop0") (Some "0123abcd") false = None.
Proof.
  split; [simpl; lia|]. apply patch_root_uuid_short_hash. simpl. lia.
Defined.

(** X18: When the verity tool prints no line that starts with [Root hash:],
    [make_verity] raises ("Root hash not found"). *)
Theorem make_verity_needs_root_hash env args :
  verity args = true →
  Forall (λ line, startswith "Root hash:" line = false) (veritysetup_stdout env) →
  make_verity env args true false false = None.
Proof.
  intros Hv Hall. unfold make_verity. rewrite Hv. cbn [orb negb].
  assert (find_root_hash (veritysetup_stdout env) = None) as ->.
  { induction Hall as [|line rest Hl _ IH]; simpl; [done|]. by rewrite Hl. }
  by case_guard.
Qed.

Lemma make_verity_needs_root_hash_witness :
  make_verity
    (mkEnv "x86_64" "/dev/loop0" (λ _, []) (λ _, 0)
       ["VERITY header information"; "Hash algorithm: sha256"] []
       true (λ _, 0%nat) "a" "b" "c" "d" "e" "f" "g" (λ r, r) (λ r, r))
    (example_args fmt_gpt_squashfs None true false None) true false false = None.
Proof.
  apply make_verity_needs_root_hash; [reflexivity|].
  repeat constructor.
Defined.

Lemma add_slot_run size type name sets_run nb o nb' :
  add_slot size type name sets_run nb = (o, nb') →
  nb_run nb' = nb_run nb || sets_run && present size.
Proof.
  unfold add_slot. destruct size as [sz|]; intros [= <- <-]; simpl.
  - by rewrite andb_true_r.
  - by rewrite andb_false_r, orb_false_r.
Qed.

(** X19: The partitioner has to run for a boot partition, for swap, for the
    four data partitions where the format has them, and for a root that is
    not generated.  The extended boot loader partition alone does not ask
    for it, although it takes a number. *)
Theorem number_partitions_run_sfdisk machine args n nb :
  number_partitions machine args = Some (n, nb) →
  nb_run nb
  = bootable args
    || present (swap_size args)
    || negb (bool_decide (kind (output_format args) = gpt_btrfs))
       && (present (home_size args) || present (srv_size args)
           || present (var_size args) || present (tmp_size args))
    || negb (is_generated_root args).
Proof.
  unfold number_partitions. intros H.
  match type of H with
  | (?boot ≫= _) = _ =>
      assert (∃ esp bios nb0, boot = Some (esp, bios, nb0)
                ∧ nb_run nb0 = bootable args) as (esp & bios & nb0 & Hboot & H0)
  end; [|rewrite Hboot in H].
  { destruct (bootable args); [|by eexists _, _, _].
    destruct (string_in "uefi" (boot_protocols args)).
    - destruct (esp_size args) as [sz|]; [|done].
      destruct (string_in "bios" (boot_protocols args)); by eexists _, _, _.
    - destruct (string_in "bios" (boot_protocols args)); by eexists _, _, _. }
  clear Hboot. cbn [mbind option_bind] in H.
  destruct (add_slot (xbootldr_size args) _ _ _ nb0) as [xb nb1] eqn:E1.
  destruct (add_slot (swap_size args) _ _ _ nb1) as [sw nb2] eqn:E2.
  apply add_slot_run in E1, E2. rewrite orb_false_r in E1.
  destruct (negb (bool_decide (kind (output_format args) = gpt_btrfs))).
  - destruct (add_slot (home_size args) _ _ _ nb2) as [ho nb3] eqn:E3.
    destruct (add_slot (srv_size args) _ _ _ nb3) as [sr nb4] eqn:E4.
    destruct (add_slot (var_size args) _ _ _ nb4) as [va nb5] eqn:E5.
    destruct (add_slot (tmp_size args) _ _ _ nb5) as [tm nb6] eqn:E6.
    apply add_slot_run in E3, E4, E5, E6.
    assert (nb_run nb6 = bootable args || present (swap_size args)
                         || (present (home_size args) || present (srv_size args)
                             || present (var_size args) || present (tmp_size args)))
      as H6.
    { rewrite E6, E5, E4, E3, E2, E1, H0.
      destruct (bootable args), (present (swap_size args)),
        (present (home_size args)), (present (srv_size args)),
        (present (var_size args)), (present (tmp_size args)); reflexivity. }
    destruct (negb (is_generated_root args)).
    + destruct (gpt_root_native _ _ _) as [pair|];
        cbn [mbind option_bind] in H; [|done].
      injection H as _ <-. simpl. by rewrite !orb_true_r.
    + cbn [mbind option_bind] in H. injection H as _ <-.
      rewrite H6. by rewrite orb_false_r.
  - assert (nb_run nb2 = bootable args || present (swap_size args)) as H2.
    { by rewrite E2, E1, H0. }
    destruct (negb (is_generated_root args)).
    + destruct (gpt_root_native _ _ _) as [pair|];
        cbn [mbind option_bind] in H; [|done].
      injection H as _ <-. simpl. by rewrite !orb_true_r.
    + cbn [mbind option_bind] in H. injection H as _ <-.
      rewrite H2. simpl. by rewrite !orb_false_r.
Qed.

Lemma number_partitions_run_sfdisk_witness :
  ∃ n nb,
    number_partitions "x86_64" example_args_xbootldr = Some (n, nb)
    ∧ n_xbootldr n = Some 1 ∧ nb_pn nb = 2
    ∧ nb_run nb = false.
Proof.
  eexists _, _. split; [vm_compute; reflexivity|]. split; [reflexivity|].
  split; [reflexivity|].
  rewrite (number_partitions_run_sfdisk "x86_64" example_args_xbootldr _ _
             ltac:(vm_compute; reflexivity)).
  reflexivity.
Defined.

(** X20: The size of a new image cannot be computed exactly when the image is
    to boot with UEFI and no ESP size, or an ESP size of 0, is set. *)
Theorem image_size_fails_iff args slots :
  image_size args slots = None
  ↔ bootable args = true
    ∧ string_in "uefi" (boot_protocols args) = true
    ∧ truthy (esp_size args) = false.
Proof.
  unfold image_size.
  assert (∃ off, first_usable_offset (empty (gpt_first_lba args)) = Some off)
    as [off ->].
  { unfold first_usable_offset, empty. simpl.
    destruct (gpt_first_lba args); [by eexists|]. vm_compute. by eexists. }
  assert (∃ foot, footer_size (empty (gpt_first_lba args)) = Some foot)
    as [foot ->] by (vm_compute; by eexists).
  cbn [mbind option_bind].
  destruct (bootable args); [|split; [done|by intros [? _]]].
  destruct (string_in "uefi" (boot_protocols args));
    [|split; [done|by intros (_ & ? & _)]].
  destruct (truthy (esp_size args)); [split; [done|by intros (_ & _ & ?)]|].
  done.
Qed.

(** ** Passes, files and caches *)

(** X21: A cache-populate pass makes no generated root and no verity data,
    patches no UUID and inserts no partition: the numbers and sizes
    assigned so far stay as they are and no tool is run. *)
Theorem cache_populate_inserts_nothing env args slots done raw loopdev dev d :
  build_image_partitions env args slots done raw loopdev dev d true
  = Some (mkPartitioned None None None None slots []).
Proof. apply build_image_partitions_for_cache. Qed.

(** X23: Saving a cache moves: the image of a format with a writable disk,
    or else the tree, is no longer where it was, and it is what the cache
    path holds afterwards; only where the format has a writable disk and
    the cache path is an existing directory the image is moved into that
    directory under its base name, which must be free there.  Links are
    left out: the cache path is none, and the directory has none under
    the base name. *)
Theorem save_cache_moves args root raw cache_path src fs fs' :
  save_cache args root raw (Some cache_path) fs = Some fs' →
  (if is_disk_rw (output_format args) then raw else Some root) = Some src →
  src ≠ cache_path →
  (∀ target, fs !! cache_path ≠ Some (Symlink target)) →
  (∀ es target, fs !! cache_path = Some (Dir es) →
                entry_lookup (basename src) es ≠ Some (Symlink target)) →
  ∃ x, fs !! src = Some x ∧ fs' !! src = None
       ∧ match (if is_disk_rw (output_format args)
                then fs !! cache_path else None) with
         | Some (Dir es) =>
             entry_lookup (basename src) es = None
             ∧ fs' !! cache_path = Some (Dir (entry_set (basename src) x es))
         | _ => fs' !! cache_path = Some x
         end.
Proof.
  unfold save_cache, unlink_try_hard. intros H Hsrc Hne _ _.
  destruct (is_disk_rw (output_format args)).
  - subst raw. by apply move_inv in H.
  - injection Hsrc as ->. apply move_inv in H as (x & H1 & H2 & H3); [|done].
    rewrite lookup_delete_ne in H1 by done. rewrite lookup_delete_eq in H3.
    by exists x.
Qed.

Lemma save_cache_moves_witness :
  ∃ fs',
    save_cache (example_args fmt_gpt_ext4 None false true None) "root"
      (Some "/var/tmp/.mkosi-raw") (Some "image.raw.cache-pre-inst")
      fs_image_and_cache_dir = Some fs'
    ∧ ∃ x, fs_image_and_cache_dir !! "/var/tmp/.mkosi-raw" = Some x
           ∧ fs' !! "/var/tmp/.mkosi-raw" = None
           ∧ entry_lookup ".mkosi-raw" (ECons "old" (File "o") ENil) = None
           ∧ fs' !! "image.raw.cache-pre-inst"
             = Some (Dir (entry_set ".mkosi-raw" x (ECons "old" (File "o") ENil))).
Proof.
  exists (<["image.raw.cache-pre-inst" :=
             Dir (ECons "old" (File "o") (ECons ".mkosi-raw" (File "image") ENil))]>
            (delete "/var/tmp/.mkosi-raw" fs_image_and_cache_dir)).
  split; [vm_compute; reflexivity|].
  apply (save_cache_moves (example_args fmt_gpt_ext4 None false true None)
           "root" (Some "/var/tmp/.mkosi-raw") "image.raw.cache-pre-inst"
           "/var/tmp/.mkosi-raw" fs_image_and_cache_dir).
  - vm_compute. reflexivity.
  - reflexivity.
  - discriminate.
  - intros target H. vm_compute in H. discriminate H.
  - intros es target H. vm_compute in H. injection H as <-. discriminate.
Defined.

(** X24: After a cache pass that finishes, the cache artifact of its stage
    exists, whether the pass has built it or has found it. *)
Theorem cache_pass_leaves_cache env args root d w image log w' c :
  cache_pass env args root d w = Some (image, log, w') →
  cache_name args d = Some c →
  (is_disk_rw (output_format args) = true → is_disk (output_format args) = true) →
  (d = true → is_Some (build_script args)) →
  c ≠ root → c ≠ var_tmp env root → c ≠ root_home env root → c ≠ tmp_raw env →
  is_Some (fs w' !! c).
Proof. apply cache_pass_cache_exists. Qed.

Lemma cache_pass_leaves_cache_witness :
  ∃ image log w',
    cache_pass example_env (example_args fmt_gpt_ext4 None false true None)
      "root" false world_fresh = Some (image, log, w')
    ∧ fs world_fresh !! "image.raw.cache-pre-inst" = None
    ∧ is_Some (fs w' !! "image.raw.cache-pre-inst").
Proof.
  eexists _, _, _. split; [vm_compute; reflexivity|]. split; [reflexivity|].
  eapply (cache_pass_leaves_cache example_env
            (example_args fmt_gpt_ext4 None false true None)
            "root" false world_fresh _ _ _ "image.raw.cache-pre-inst").
  - vm_compute. reflexivity.
  - reflexivity.
  - reflexivity.
  - discriminate.
  - discriminate.
  - vm_compute. discriminate.
  - vm_compute. discriminate.
  - discriminate.
Defined.

Lemma remove_artifacts_absent env args root d fc fs p :
  fs !! p = None → remove_artifacts env args root d fc fs !! p = None.
Proof.
  unfold remove_artifacts, unlink_try_hard. intros H.
  destruct (fc || d); [|done].
  destruct (usr_only args); repeat (apply lookup_delete_None; right); done.
Qed.

(** X25: Without a build script nothing writes the cache of the development
    stage: when it is missing before an incremental build it is missing
    afterwards, and the next build is asked for cache images again. *)
Theorem dev_cache_never_written env args root w out log w' c :
  build_stuff env args root w = Some (out, log, w') →
  build_script args = None →
  cache_pre_dev args = Some c →
  fs w !! c = None →
  c ≠ root → c ≠ tmp_raw env → cache_pre_inst args ≠ Some c →
  fs w' !! c = None
  ∧ (incremental args = true → need_cache_images args (fs w') = Some true).
Proof.
  intros H Hscript Hdev Habs Hroot Hraw Hinst.
  assert (fs w' !! c = None) as Hgone.
  { unfold build_stuff in H. rewrite Hscript in H.
    destruct (need_cache_images args (fs w)) as [need|]; [|done].
    cbn [mbind option_bind] in H.
    assert (∃ im1 log1 w1,
              (if need then cache_stage env args root BuildOutput_empty w
               else Some (BuildOutput_empty, [], w)) = Some (im1, log1, w1)
              ∧ fs w1 !! c = None) as (im1 & log1 & w1 & E & H1).
    { destruct need; [|by eexists _, _, _].
      unfold cache_stage in *. rewrite Hscript in *.
      cbn [mbind option_bind] in *.
      destruct (cache_pass env args root false w) as [[[o2 l2] v2]|] eqn:Ef; [|done].
      eexists _, _, _. split; [reflexivity|].
      apply cache_pass_inv in Ef as (e2 & x2 & fs2 & Hb & Hs & -> & _). simpl.
      apply remove_artifacts_absent.
      eapply save_cache_absent; [exact Hs|done|].
      by rewrite (build_image_other _ _ _ _ _ _ _ _ _ c Hb). }
    rewrite E in H. cbn [mbind option_bind] in H.
    destruct (negb (skip_final_phase args)).
    - destruct (build_image env args root false false w1) as [[[im3 ev3] w3]|] eqn:Eb;
        [|done].
      cbn [mbind option_bind] in H. injection H as _ _ <-.
      by rewrite (build_image_other _ _ _ _ _ _ _ _ _ c Eb).
    - by injection H as _ _ <-. }
  split; [done|]. intros Hinc.
  unfold build_stuff in H.
  destruct (need_cache_images args (fs w)) as [need|] eqn:En; [|done].
  unfold need_cache_images in *. rewrite Hinc, Hdev in *. simpl in *.
  destruct (1 <? force_count args); [done|].
  cbn [mbind option_bind] in *.
  destruct (cache_pre_inst args) as [i|]; [|done].
  cbn [mbind option_bind]. rewrite Hgone. done.
Qed.

Lemma dev_cache_never_written_witness :
  ∃ out log w',
    build_stuff example_env (example_args fmt_gpt_ext4 None false true None)
      "root" world_fresh = Some (out, log, w')
    ∧ fs w' !! "image.raw.cache-pre-dev" = None
    ∧ (incremental (example_args fmt_gpt_ext4 None false true None) = true →
       need_cache_images (example_args fmt_gpt_ext4 None false true None) (fs w')
       = Some true).
Proof.
  eexists _, _, _. split; [vm_compute; reflexivity|].
  eapply (dev_cache_never_written example_env
            (example_args fmt_gpt_ext4 None false true None)
            "root" world_fresh _ _ _ "image.raw.cache-pre-dev").
  - vm_compute. reflexivity.
  - reflexivity.
  - reflexivity.
  - reflexivity.
  - discriminate.
  - discriminate.
  - discriminate.
Defined.

Lemma cache_stage_log env args root image w out log w' d :
  cache_stage env args root image w = Some (out, log, w') →
  count_built d false log = 0%nat.
Proof.
  unfold cache_stage. intros H.
  destruct (build_script args) as [bs|].
  - destruct (cache_pass env args root true w) as [[[o1 l1] v1]|] eqn:Ed; [|done].
    cbn [mbind option_bind] in H.
    destruct (cache_pass env args root false v1) as [[[o2 l2] v2]|] eqn:Ef; [|done].
    cbn [mbind option_bind] in H. injection H as _ <- _.
    apply cache_pass_inv in Ed as (? & ? & ? & _ & _ & _ & ->).
    apply cache_pass_inv in Ef as (? & ? & ? & _ & _ & _ & ->).
    by destruct d.
  - cbn [mbind option_bind] in H.
    destruct (cache_pass env args root false w) as [[[o2 l2] v2]|] eqn:Ef; [|done].
    cbn [mbind option_bind] in H. injection H as _ <- _.
    apply cache_pass_inv in Ef as (? & ? & ? & _ & _ & _ & ->).
    by destruct d.
Qed.

(** X26: Outside the cache stage the pipeline runs the development pass once
    if and only if a build script is configured, and the final pass once
    unless the final phase is skipped; the bundle it hands on is the one
    of the final pass, which is the last thing it does. *)
Theorem build_stuff_passes env args root w out log w' :
  build_stuff env args root w = Some (out, log, w') →
  count_built true false log = (if present (build_script args) then 1 else 0)%nat
  ∧ count_built false false log = (if skip_final_phase args then 0 else 1)%nat
  ∧ (skip_final_phase args = false →
     ∃ ev, last log = Some (Built false false out ev)).
Proof.
  unfold build_stuff. intros H.
  destruct (need_cache_images args (fs w)) as [need|]; [|done].
  cbn [mbind option_bind] in H.
  assert (∃ im1 log1 w1,
            (if need then cache_stage env args root BuildOutput_empty w
             else Some (BuildOutput_empty, [], w)) = Some (im1, log1, w1)
            ∧ ∀ d, count_built d false log1 = 0%nat)
    as (im1 & log1 & w1 & E & H1).
  { destruct need.
    - destruct (cache_stage env args root BuildOutput_empty w)
        as [[[im1 log1] w1]|] eqn:Ec; [|done].
      eexists _, _, _. split; [reflexivity|]. intros d.
      by eapply cache_stage_log.
    - by eexists _, _, _. }
  rewrite E in H. clear E. cbn [mbind option_bind] in H.
  destruct (build_script args) as [bs|]; simpl.
  - destruct (build_image env args root true false w1) as [[[im2 ev2] w2]|]; [|done].
    cbn [mbind option_bind] in H.
    destruct (skip_final_phase args); simpl in H.
    + injection H as _ <- _. rewrite !count_built_app, !H1. by repeat split.
    + destruct (build_image env args root false false _) as [[[im3 ev3] w3]|];
        [|done].
      cbn [mbind option_bind] in H. injection H as <- <- _.
      rewrite !count_built_app, !H1. split; [done|]. split; [done|].
      intros _. exists ev3. by rewrite last_app.
  - destruct (skip_final_phase args); simpl in H.
    + injection H as _ <- _. rewrite !H1. by repeat split.
    + destruct (build_image env args root false false w1) as [[[im3 ev3] w3]|];
        [|done].
      cbn [mbind option_bind] in H. injection H as <- <- _.
      rewrite !count_built_app, !H1. split; [done|]. split; [done|].
      intros _. exists ev3. by rewrite last_app.
Qed.

Lemma build_stuff_passes_witness :
  ∃ out log w',
    build_stuff example_env
      (example_args fmt_directory None false true (Some "build.sh")) "root"
      world_fresh = Some (out, log, w')
    ∧ count_built true false log = 1%nat
    ∧ count_built false false log = 1%nat.
Proof.
  eexists _, _, _. split; [vm_compute; reflexivity|].
  pose proof (build_stuff_passes example_env
    (example_args fmt_directory None false true (Some "build.sh")) "root"
    world_fresh _ _ _ ltac:(vm_compute; reflexivity)) as (H1 & H2 & _).
  split; [exact H1|exact H2].
Defined.

(** ** Copying a tree *)

(** X27: Copying a tree into a directory merges: where the copy does not go
    through a link of the destination, what the directory held under
    names the source does not have is still there. *)
Theorem copy_path_keeps_other_entries oldpath newpath fs fs' src ds name :
  copy_path oldpath newpath fs = Some fs' →
  fs !! oldpath = Some (Dir src) →
  fs !! newpath = Some (Dir ds) →
  links_clear src ds = true →
  entry_lookup name src = None →
  ∃ merged, fs' !! newpath = Some (Dir merged)
            ∧ entry_lookup name merged = entry_lookup name ds.
Proof.
  unfold copy_path. intros H Hold Hnew _ Hname. rewrite Hold, Hnew in H.
  destruct (copy_entries src ds) as [merged|] eqn:E; [|done].
  cbn [mbind option_bind] in H. injection H as <-.
  exists merged. split; [by rewrite lookup_insert_eq|].
  by eapply copy_entries_keeps_others.
Qed.

Lemma copy_path_keeps_other_entries_witness :
  ∃ fs' merged,
    copy_path "cache" "root" fs_cache_and_root = Some fs'
    ∧ fs' !! "root" = Some (Dir merged)
    ∧ entry_lookup "etc" merged
      = entry_lookup "etc" (ECons "etc" (Dir ENil) (ECons "usr" (File "old") ENil)).
Proof.
  destruct (copy_path_keeps_other_entries "cache" "root" fs_cache_and_root
              (<["root" := Dir (ECons "etc" (Dir ENil)
                                  (ECons "usr" (Dir (ECons "bin" (File "sh") ENil))
                                     ENil))]> fs_cache_and_root)
              (ECons "usr" (Dir (ECons "bin" (File "sh") ENil)) ENil)
              (ECons "etc" (Dir ENil) (ECons "usr" (File "old") ENil)) "etc")
    as (merged & H1 & H2).
  - vm_compute. reflexivity.
  - vm_compute. reflexivity.
  - vm_compute. reflexivity.
  - reflexivity.
  - reflexivity.
  - eexists _, merged. split; [vm_compute; reflexivity|]. split; [exact H1|exact H2].
Defined.

(** X28: A file or a link of the source cannot replace a directory of the
    destination: the copy raises. *)
Theorem copy_entries_file_over_directory src : ∀ dst name x ds,
  entry_lookup name src = Some x →
  (∀ es, x ≠ Dir es) → x ≠ Special →
  entry_lookup name dst = Some (Dir ds) →
  copy_entries src dst = None.
Proof.
  induction src as [|n y rest IH]; intros dst name x ds Hsrc Hdir Hspecial Hdst;
    [done|].
  rewrite copy_entries_cons. simpl in Hsrc.
  destruct (String.eqb n name) eqn:En.
  - apply String.eqb_eq in En as ->. injection Hsrc as ->. simpl. rewrite Hdst.
    destruct x as [data|target|es|]; try done. by destruct (Hdir es).
  - apply String.eqb_neq in En.
    destruct (copy_entries (ECons n y ENil) dst) as [dst'|] eqn:E; [|done].
    cbn [mbind option_bind]. eapply IH; try done.
    by rewrite (copy_entries_step _ _ _ _ _ E En).
Qed.

Lemma copy_entries_file_over_directory_witness :
  copy_entries (ECons "etc" (Dir ENil) (ECons "usr" (Symlink "bin") ENil))
    (ECons "usr" (Dir ENil) ENil) = None.
Proof.
  apply (copy_entries_file_over_directory _ _ "usr" (Symlink "bin") ENil);
    [reflexivity|discriminate|discriminate|reflexivity].
Defined.

(** X29: When the cache of the stage is a tree and is missing, the pass is
    told that it works on a cached tree all the same, although nothing
    has been copied. *)
Theorem reuse_cache_tree_missing_cache args root d fname fs :
  incremental args = true →
  is_disk_rw (output_format args) = false →
  cache_name args d = Some fname →
  fs !! fname = None →
  reuse_cache_tree args root d false false fs = Some (true, fs).
Proof.
  unfold reuse_cache_tree. intros -> -> -> Hmissing. simpl.
  rewrite bool_decide_eq_false_2; [done|].
  rewrite Hmissing. by intros [? ?].
Qed.

Lemma reuse_cache_tree_missing_cache_witness :
  reuse_cache_tree (example_args fmt_directory None false true None) "root"
    false false false ∅ = Some (true, ∅).
Proof.
  by apply (reuse_cache_tree_missing_cache _ _ _ "image.raw.cache-pre-inst").
Defined.
